(** * LiveEvents: event delegation for LiveUI

    A shallow embedding of [packages/liveui/liveevents.js] and the
    properties of its event-spec parser, its delegated listeners, its
    binder and unbinder, and the compatibility layer for old IE. *)

From Stdlib Require Import List String Ascii Bool Arith Lia.
Import ListNotations.
Open Scope string_scope.
Open Scope bool_scope.
Open Scope list_scope.

(** ** Strings of the host language

    A JavaScript string is a sequence of code units; the model keeps the
    code units below 256 (Rocq's [ascii]).  [is_ws] is the character
    class [\s] on that range: tab, line feed, vertical tab, form feed,
    carriage return, space and the no-break space. *)

Definition is_ws (c : ascii) : bool :=
  let n := nat_of_ascii c in
  Nat.eqb n 9 || Nat.eqb n 10 || Nat.eqb n 11 || Nat.eqb n 12
  || Nat.eqb n 13 || Nat.eqb n 32 || Nat.eqb n 160.

Definition is_comma (c : ascii) : bool := Nat.eqb (nat_of_ascii c) 44.

Definition starts_with_ws (s : string) : bool :=
  match s with
  | EmptyString => false
  | String c _ => is_ws c
  end.

Definition snoc (s : string) (c : ascii) : string :=
  String.append s (String c EmptyString).

(** [s.split(/\s+/)]: the scanner of [String.prototype.split] for a
    separator that matches a maximal run of white space.  [in_sep] says
    that the previous character belonged to a separator match, [cur] is
    the piece collected since the end of the last match.  The piece that
    is open at the end of the input is always emitted, so the result is
    never the empty array. *)
Fixpoint split_ws_go (in_sep : bool) (cur : string) (s : string) : list string :=
  match s with
  | EmptyString => [cur]
  | String c s' =>
      if is_ws c then
        if in_sep then split_ws_go true cur s'
        else cur :: split_ws_go true EmptyString s'
      else split_ws_go false (snoc cur c) s'
  end.

Definition split_ws (s : string) : list string := split_ws_go false EmptyString s.

(** [s.split(/,\s+/)]: a separator match starts at a comma that is
    followed by white space and extends over the whole run of white
    space. *)
Fixpoint split_clauses_go (in_sep : bool) (cur : string) (s : string) : list string :=
  match s with
  | EmptyString => [cur]
  | String c s' =>
      if in_sep && is_ws c then split_clauses_go true cur s'
      else if is_comma c && starts_with_ws s' then
        cur :: split_clauses_go true EmptyString s'
      else split_clauses_go false (snoc cur c) s'
  end.

Definition split_clauses (s : string) : list string :=
  split_clauses_go false EmptyString s.

(** [parts.join(' ')]. *)
Definition join_space (parts : list string) : string := String.concat " " parts.

(** ** Event specs and normalized bindings *)

(** User callbacks and the event-data object are opaque to this layer;
    they are known by identity only. *)
Definition callback := nat.
Definition object_ref := nat.

(** The event map [{spec: callback}], in the iteration order of [_.each]. *)
Definition event_map := list (string * callback).

Record Binding := mkBinding {
  eventType : string;
  rewrittenEventType : string;
  bubbles : bool;
  selector : string;
  b_callback : callback
}.

(** The [switch (eventType)] of [_attachEvents].  [legacy] says whether
    [wireIEChangeSubmitHack] is non-null (IE <= 8). *)
Definition rewriteEventType (legacy : bool) (eventType : string) : string * bool :=
  if String.eqb eventType "focus" then ("focusin", false)
  else if String.eqb eventType "blur" then ("focusout", false)
  else if String.eqb eventType "change" then
    ((if legacy then "cellchange" else eventType), true)
  else if String.eqb eventType "submit" then
    ((if legacy then "datasetcomplete" else eventType), true)
  else (eventType, true).

(** The binding a clause denotes once its event type and selector are
    known. *)
Definition make_binding (legacy : bool) (eventType selector : string)
  (cb : callback) : Binding :=
  let '(rewritten, bubbles) := rewriteEventType legacy eventType in
  mkBinding eventType rewritten bubbles selector cb.

(** One clause: [clause.split(/\s+/)], the guard on [parts.length]
    ([None] is its [return]), then [parts.shift()] and
    [parts.join(' ')]. *)
Definition parse_clause (legacy : bool) (cb : callback) (clause : string)
  : option Binding :=
  match split_ws clause with
  | [] => None
  | eventType :: parts =>
      Some (make_binding legacy eventType (join_space parts) cb)
  end.

Definition clause_bindings (legacy : bool) (cb : callback) (clause : string)
  : list Binding :=
  match parse_clause legacy cb clause with
  | Some b => [b]
  | None => []
  end.

Definition parse_spec (legacy : bool) (spec : string) (cb : callback)
  : list Binding :=
  flat_map (clause_bindings legacy cb) (split_clauses spec).

(** [events = events || {}] followed by the two nested [_.each]. *)
Definition parse_events (legacy : bool) (events : option event_map)
  : list Binding :=
  let events := match events with Some m => m | None => [] end in
  flat_map (fun '(spec, cb) => parse_spec legacy spec cb) events.

(** The rewriting table as the specification prints it: one row per
    input type with the rewritten type, the bubbles flag, and whether
    the row applies only under the legacy compatibility layer. *)
Record table_row := mkRow {
  row_input : string;
  row_rewritten : string;
  row_bubbles : bool;
  row_legacy_only : bool
}.

Definition rewriting_table : list table_row :=
  [ mkRow "focus" "focusin" false false;
    mkRow "blur" "focusout" false false;
    mkRow "change" "cellchange" true true;
    mkRow "submit" "datasetcomplete" true true ].

Definition table_lookup (legacy : bool) (ty : string) : string * bool :=
  match List.find (fun r => String.eqb (row_input r) ty) rewriting_table with
  | Some r =>
      if row_legacy_only r && negb legacy then (ty, true)
      else (row_rewritten r, row_bubbles r)
  | None => (ty, true)
  end.

(** ** The document tree

    Nodes are known by identity.  A [DOM] is a snapshot of the tree as
    the code reads it: the links [parentNode], [nextSibling] and
    [firstChild] ([None] is [null]), [nodeName], the [type] property of
    inputs and [getElementsByTagName].  The links of a tree have no
    cycles: [depth] (distance to the root) and [rank] (number of
    following siblings) are the measures that say so. *)

Definition node := nat.

Record DOM := mkDOM {
  parentNode : node -> option node;
  nextSibling : node -> option node;
  firstChild : node -> option node;
  nodeName : node -> string;
  inputType : node -> string;
  getElementsByTagName : node -> string -> list node;
  depth : node -> nat;
  rank : node -> nat;
  parent_depth : forall n p, parentNode n = Some p -> depth p < depth n;
  sibling_rank : forall n m, nextSibling n = Some m -> rank m < rank n
}.

(** [a === b] on values that are a node or [null]. *)
Definition same_node (a b : option node) : bool :=
  match a, b with
  | None, None => true
  | Some x, Some y => Nat.eqb x y
  | _, _ => false
  end.

(** [_.contains(results, curNode)]. *)
Definition contains (results : list node) (curNode : option node) : bool :=
  match curNode with
  | None => false
  | Some c => existsb (Nat.eqb c) results
  end.

(** ** Outcomes

    A piece of code returns a value, throws the [TypeError] of a
    property read on [null], or exhausts the step budget of the
    model. *)
Inductive result (A : Type) : Type :=
| Ret (a : A)
| TypeError
| Timeout.
Arguments Ret {A} a.
Arguments TypeError {A}.
Arguments Timeout {A}.

Definition bind {A B} (r : result A) (k : A -> result B) : result B :=
  match r with
  | Ret a => k a
  | TypeError => TypeError
  | Timeout => Timeout
  end.

Notation "x <- r ;; k" := (bind r (fun x => k))
  (at level 61, r at next level, right associativity).

Fixpoint foldM {A St} (f : A -> St -> result St) (l : list A) (s : St)
  : result St :=
  match l with
  | [] => Ret s
  | a :: l' => s' <- f a s ;; foldM f l' s'
  end.

(** ** Events, listeners and invocations *)

(** The normalized event object a listener receives: its [type], its
    [target], and [ev_rest] for every other field. *)
Record Event := mkEvent {
  ev_type : string;
  ev_target : node;
  ev_rest : nat
}.

Definition set_type (evt : Event) (ty : string) : Event :=
  mkEvent ty (ev_target evt) (ev_rest evt).

(** The closure [function (evt) {...}] that [attach] creates: the
    binding of the clause, [renderNode] and [event_data]. *)
Record Listener := mkListener {
  l_binding : Binding;
  l_renderNode : node;
  l_event_data : object_ref
}.

(** One [callback.call(event_data, evt)]. *)
Record Invocation := mkInvocation {
  inv_callback : callback;
  inv_this : object_ref;
  inv_event : Event
}.

Definition truthy (s : string) : bool := negb (String.eqb s "").

Section Delegation.

Variable d : DOM.

(** [$(contextNode).find(selector)], the selector matcher. *)
Variable find : option node -> string -> list node.

(** The loop
    [for (curNode = evt.target; curNode !== contextNode;
          curNode = curNode.parentNode)]
    and its result [selectorMatch]. *)
Fixpoint selector_walk (fuel : nat) (contextNode : option node)
  (results : list node) (bubbles : bool) (curNode : option node)
  : result (option node) :=
  match fuel with
  | 0 => Timeout
  | S fuel' =>
      if same_node curNode contextNode then Ret None
      else if contains results curNode then Ret curNode
      else if negb bubbles then Ret None
      else match curNode with
           | None => TypeError
           | Some c =>
               selector_walk fuel' contextNode results bubbles (parentNode d c)
           end
  end.

(** A walk passes through the origin, its ancestors and [null] at
    most, so this budget is never exhausted ([selector_walk_budget]). *)
Definition walk_fuel (t : node) : nat := S (S (depth d t)).

(** The body of the listener: the event after it ran, and the
    invocation of the user callback if there was one. *)
Definition listener (l : Listener) (evt : Event)
  : result (Event * option Invocation) :=
  let b := l_binding l in
  let contextNode := parentNode d (l_renderNode l) in
  let evt := set_type evt (eventType b) in
  let call := mkInvocation (b_callback b) (l_event_data l) evt in
  if truthy (selector b) then
    let results := find contextNode (selector b) in
    selectorMatch <-
      selector_walk (walk_fuel (ev_target evt)) contextNode results
        (bubbles b) (Some (ev_target evt)) ;;
    match selectorMatch with
    | None => Ret (evt, None)
    | Some _ => Ret (evt, Some call)
    end
  else Ret (evt, Some call).

Definition invoked (r : result (Event * option Invocation)) : bool :=
  match r with
  | Ret (_, Some _) => true
  | _ => false
  end.

(** The parent-link path from [cur] (inclusive) up to but excluding
    [contextNode]. *)
Fixpoint path_below (fuel : nat) (contextNode cur : option node) : list node :=
  match fuel with
  | 0 => []
  | S fuel' =>
      match cur with
      | None => []
      | Some c =>
          if same_node cur contextNode then []
          else c :: path_below fuel' contextNode (parentNode d c)
      end
  end.

Definition parent_path (contextNode : option node) (t : node) : list node :=
  path_below (S (depth d t)) contextNode (Some t).

(** The propagation path of an event that originates at [t]: [t] and
    its ancestors, innermost first. *)
Definition ancestors_or_self (t : node) : list node := parent_path None t.

End Delegation.

(** ** The listener registry *)

(** Listeners on a node are either the delegated listeners of this
    file or the listeners of other subsystems, which are opaque. *)
Inductive handler : Type :=
| Delegated (l : Listener)
| Foreign (id : nat).

Record Registration := mkRegistration {
  r_node : node;
  r_type : string;
  r_namespace : string;
  r_handler : handler
}.

Definition Registry := list Registration.

(** The fixed namespace of [rewrittenEventType+".liveui"] and of
    [unbind(".liveui")]. *)
Definition liveui : string := "liveui".

(** Modelled from the spec: the platform's listener attach
    ([$.event.add(elem, type + "." + namespace, handler)]), which
    [liveevents.js] calls and does not define.  A registration is keyed
    by node, type and namespace; registrations are kept in the order
    they were made and are not deduplicated. *)
Definition event_add (reg : Registry) (elem : node) (type namespace : string)
  (h : handler) : Registry :=
  reg ++ [mkRegistration elem type namespace h].

Definition under (elem : node) (namespace : string) (r : Registration) : bool :=
  Nat.eqb (r_node r) elem && String.eqb (r_namespace r) namespace.

(** Modelled from the spec: the platform's listener detach by namespace
    ([$(node).unbind("." + namespace)]), which [liveevents.js] calls and
    does not define: every registration of that namespace on that node
    goes, whatever its event type, and nothing else changes. *)
Definition unbind (reg : Registry) (elem : node) (namespace : string) : Registry :=
  filter (fun r => negb (under elem namespace r)) reg.

Definition option_list {A} (o : option A) : list A :=
  match o with
  | Some a => [a]
  | None => []
  end.

Section Binder.

Variable d : DOM.
Variable find : option node -> string -> list node.

(** Whether the compatibility layer is active
    ([wireIEChangeSubmitHack] is non-null). *)
Variable legacy : bool.

(** [var attach = function (renderNode) { $.event.add(...) }]. *)
Definition attach (b : Binding) (event_data : object_ref)
  (renderNode : node) (reg : Registry) : Registry :=
  event_add reg renderNode (rewrittenEventType b) liveui
    (Delegated (mkListener b renderNode event_data)).

(** [for (var n = start; n && n !== after; n = n.nextSibling) body(n)].
    A sibling has fewer following siblings than the node before it, so
    the budget [range_fuel] is never exhausted ([for_siblings_range]). *)
Fixpoint for_siblings {St : Type} (fuel : nat) (after : option node)
  (body : node -> St -> St) (n : option node) (s : St) : result St :=
  match fuel with
  | 0 => Timeout
  | S fuel' =>
      match n with
      | None => Ret s
      | Some x =>
          if same_node n after then Ret s
          else for_siblings fuel' after body (nextSibling d x) (body x s)
      end
  end.

Definition range_fuel (start : node) : nat := S (S (rank d start)).

(** The body of the inner [_.each(clauses, ...)]. *)
Definition attach_clause (start end_ : node) (cb : callback)
  (event_data : object_ref) (clause : string) (reg : Registry)
  : result Registry :=
  match parse_clause legacy cb clause with
  | None => Ret reg
  | Some b =>
      let after := nextSibling d end_ in
      for_siblings (range_fuel start) after (attach b event_data)
        (Some start) reg
  end.

(** [Meteor.ui._attachEvents]. *)
Definition attachEvents (start end_ : node) (events : option event_map)
  (event_data : object_ref) (reg : Registry) : result Registry :=
  let events := match events with Some m => m | None => [] end in
  foldM (fun '(spec, cb) reg =>
           foldM (attach_clause start end_ cb event_data)
             (split_clauses spec) reg)
    events reg.

(** [Meteor.ui._resetEvents]. *)
Definition resetEvents (n : node) (reg : Registry) : Registry :=
  unbind reg n liveui.

Definition handlers_for (reg : Registry) (n : node) (type : string)
  : list Registration :=
  filter (fun r => Nat.eqb (r_node r) n && String.eqb (r_type r) type) reg.

(** Modelled from the spec: the platform's handler loop for one node,
    which [liveevents.js] relies on and does not define.  The handlers
    run in registration order on one shared event object; a handler
    that throws ends the run.  The listeners of other subsystems and
    the user callbacks are taken to leave the registry, the tree and
    the event alone. *)
Fixpoint run_handlers (hs : list Registration) (evt : Event)
  : result (list Invocation) :=
  match hs with
  | [] => Ret []
  | r :: hs' =>
      match r_handler r with
      | Foreign _ => run_handlers hs' evt
      | Delegated l =>
          out <- listener d find l evt ;;
          calls <- run_handlers hs' (fst out) ;;
          Ret (option_list (snd out) ++ calls)
      end
  end.

(** Modelled from the spec: the platform's delivery of an event to
    one node, which [liveevents.js] relies on and does not define: the
    handlers registered on the node for the type the event is delivered
    under. *)
Definition deliver (reg : Registry) (n : node) (evt : Event)
  : result (list Invocation) :=
  run_handlers (handlers_for reg n (ev_type evt)) evt.

Fixpoint deliver_along (reg : Registry) (path : list node) (evt : Event)
  : result (list Invocation) :=
  match path with
  | [] => Ret []
  | n :: path' =>
      here <- deliver reg n evt ;;
      above <- deliver_along reg path' evt ;;
      Ret (here ++ above)
  end.

(** Modelled from the spec: the platform's bubbling, which
    [liveevents.js] relies on and does not define: an event that
    originates at [ev_target evt] is delivered to the target and then
    to each ancestor in turn, every node receiving the event as it was
    fired. *)
Definition fire (reg : Registry) (evt : Event) : result (list Invocation) :=
  deliver_along reg (ancestors_or_self d (ev_target evt)) evt.

End Binder.

(** ** The compatibility layer for IE <= 8 *)

(** Handlers attached with [attachEvent] are compared by identity:
    [changeSubmitHandlerIE] is one function, everything else is
    foreign. *)
Inductive ie_handler : Type :=
| ChangeSubmitHandlerIE
| OtherHandler (id : nat).

Definition ie_handler_eqb (a b : ie_handler) : bool :=
  match a, b with
  | ChangeSubmitHandlerIE, ChangeSubmitHandlerIE => true
  | OtherHandler x, OtherHandler y => Nat.eqb x y
  | _, _ => false
  end.

Record Attachment := mkAttachment {
  a_node : node;
  a_event : string;
  a_handler : ie_handler
}.

Definition Attachments := list Attachment.

Definition same_attachment (n : node) (ev : string) (h : ie_handler)
  (a : Attachment) : bool :=
  Nat.eqb (a_node a) n && String.eqb (a_event a) ev
  && ie_handler_eqb (a_handler a) h.

(** Modelled from the spec: the host's [n.attachEvent(ev, h)], which
    [liveevents.js] calls and does not define: the host keeps one more
    attachment, also when the same function is already attached. *)
Definition attachEvent (s : Attachments) (n : node) (ev : string)
  (h : ie_handler) : Attachments :=
  s ++ [mkAttachment n ev h].

(** Modelled from the spec: the host's [n.detachEvent(ev, h)], which
    [liveevents.js] calls and does not define: the host drops one
    attachment of [h] for [ev] on [n] if there is one. *)
Fixpoint detachEvent (s : Attachments) (n : node) (ev : string)
  (h : ie_handler) : Attachments :=
  match s with
  | [] => []
  | a :: s' =>
      if same_attachment n ev h a then s'
      else a :: detachEvent s' n ev h
  end.

(** The event object of the host ([window.event]): [returnValue] is
    [undefined] ([None]) until somebody sets it. *)
Record IEEvent := mkIEEvent {
  ie_type : string;
  ie_srcElement : option node;
  ie_propertyName : string;
  ie_returnValue : option bool
}.

Definition is_false (v : option bool) : bool :=
  match v with
  | Some false => true
  | _ => false
  end.

(** What a run of the compatibility handlers does to the world, in
    order: [evt.returnValue = false] on the original event, a
    [target.fireEvent(name, ...)], a [target.submit()]. *)
Inductive action : Type :=
| BlockDefault
| FireEvent (target : node) (name : string)
| FormSubmit (target : node).

(** What becomes of a fired event on its way up from its target: a
    listener below the document stops its propagation ([cancelBubble],
    [stopPropagation]), or the event reaches the document with the
    [returnValue] that the listeners on the way left on it (a
    [preventDefault] sets it to [false]). *)
Inductive bubbled : Type :=
| StoppedBelowDocument
| ReachedDocument (returnValue : option bool).

Section Legacy.

Variable d : DOM.

(** What the listeners below the document do with an event fired on a
    node under a name: user callbacks and other subsystems, opaque to
    this file. *)
Variable bubble : node -> string -> IEEvent -> bubbled.

Definition wireNode (n : node) (s : Attachments) : Attachments :=
  if String.eqb (nodeName d n) "INPUT" then
    if String.eqb (inputType d n) "checkbox"
       || String.eqb (inputType d n) "radio" then
      attachEvent (detachEvent s n "onpropertychange" ChangeSubmitHandlerIE)
        n "onpropertychange" ChangeSubmitHandlerIE
    else
      attachEvent (detachEvent s n "onchange" ChangeSubmitHandlerIE)
        n "onchange" ChangeSubmitHandlerIE
  else if String.eqb (nodeName d n) "FORM" then
    attachEvent (detachEvent s n "onsubmit" ChangeSubmitHandlerIE)
      n "onsubmit" ChangeSubmitHandlerIE
  else s.

(** [_.each(list, wireNode)]. *)
Definition each_wireNode (l : list node) (s : Attachments) : Attachments :=
  fold_left (fun s n => wireNode n s) l s.

(** The body of the loop over the range. *)
Definition wire_range_node (n : node) (s : Attachments) : Attachments :=
  let s := wireNode n s in
  match firstChild d n with
  | Some _ =>
      let s := each_wireNode (getElementsByTagName d n "INPUT") s in
      each_wireNode (getElementsByTagName d n "FORM") s
  | None => s
  end.

Definition wireIEChangeSubmitHack (start end_ : node) (s : Attachments)
  : result Attachments :=
  let after := nextSibling d end_ in
  for_siblings d (range_fuel d start) after wire_range_node (Some start) s.

(** [Meteor.ui._prepareForEvents]. *)
Definition prepareForEvents (legacy : bool) (start end_ : node)
  (s : Attachments) : result Attachments :=
  if legacy then wireIEChangeSubmitHack start end_ s else Ret s.

(** The handler attached to the document for [ondatasetcomplete]. *)
Definition ondatasetcomplete (window_event : option IEEvent) : list action :=
  match window_event with
  | None => []
  | Some evt =>
      match ie_srcElement evt with
      | None => []
      | Some target =>
          if String.eqb (nodeName d target) "FORM"
             && negb (is_false (ie_returnValue evt))
          then [FormSubmit target]
          else []
      end
  end.

(** [document.createEventObject()]. *)
Definition createEventObject : IEEvent := mkIEEvent "" None "" None.

(** [name] without its [on] prefix. *)
Definition event_name (name : string) : string :=
  substring 2 (String.length name - 2) name.

(** Modelled from the spec: the host's [target.fireEvent(name,
    newEvent)], which [liveevents.js] calls and does not define.  The
    host makes [newEvent] the current event with [target] as its
    source and lets it bubble.  The handler that this file attaches to
    the document for [ondatasetcomplete] runs only when an event of
    that name reaches the document, after the listeners below it, and
    sees the [returnValue] they left; when a listener stops the
    propagation it does not run.  [target.submit()] dispatches
    nothing. *)
Definition fireEvent (target : node) (name : string) (newEvent : IEEvent)
  : list action :=
  let evt := mkIEEvent (event_name name) (Some target)
               (ie_propertyName newEvent) (ie_returnValue newEvent) in
  FireEvent target name ::
    match bubble target name evt with
    | StoppedBelowDocument => []
    | ReachedDocument returnValue =>
        if String.eqb name "ondatasetcomplete"
        then ondatasetcomplete
               (Some (mkIEEvent (ie_type evt) (ie_srcElement evt)
                        (ie_propertyName evt) returnValue))
        else []
    end.

(** [changeSubmitHandlerIE]: the original event after the handler
    ran, and what the handler did. *)
Definition changeSubmitHandlerIE (window_event : option IEEvent)
  : option IEEvent * list action :=
  match window_event with
  | None => (None, [])
  | Some evt =>
      match ie_srcElement evt with
      | None => (Some evt, [])
      | Some target =>
          let newEvent := createEventObject in
          let change :=
            if String.eqb (ie_type evt) "propertychange"
               && String.eqb (ie_propertyName evt) "checked"
               || String.eqb (ie_type evt) "change"
            then fireEvent target "oncellchange" newEvent
            else [] in
          if String.eqb (ie_type evt) "submit" then
            (Some (mkIEEvent (ie_type evt) (ie_srcElement evt)
                     (ie_propertyName evt) (Some false)),
             change ++ BlockDefault
               :: fireEvent target "ondatasetcomplete" newEvent)
          else (Some evt, change)
      end
  end.

End Legacy.

(** A sequence of [prepareForEvents] calls, each over its own range of
    the document as it is at the time of the call. *)
Fixpoint prepare_all (legacy : bool) (calls : list (DOM * (node * node)))
  (s : Attachments) : result Attachments :=
  match calls with
  | [] => Ret s
  | (d, (start, end_)) :: calls' =>
      s' <- prepareForEvents d legacy start end_ s ;;
      prepare_all legacy calls' s'
  end.

(** How many times [changeSubmitHandlerIE] is attached to a node for an
    event. *)
Definition compat_count (s : Attachments) (n : node) (ev : string) : nat :=
  List.length (filter (same_attachment n ev ChangeSubmitHandlerIE) s).

Definition at_most_one (s : Attachments) : Prop :=
  forall n ev, compat_count s n ev <= 1.

Definition is_submit (a : action) : bool :=
  match a with
  | FormSubmit _ => true
  | _ => false
  end.

Definition count_submits (acts : list action) : nat :=
  List.length (filter is_submit acts).

(** ** Ranges, installed listeners and counts *)

(** The nodes that the loop over a range visits, in order. *)
Fixpoint range_nodes (d : DOM) (fuel : nat) (after n : option node)
  : list node :=
  match fuel with
  | 0 => []
  | S fuel' =>
      match n with
      | None => []
      | Some x =>
          if same_node n after then []
          else x :: range_nodes d fuel' after (nextSibling d x)
      end
  end.

Definition sibling_range (d : DOM) (start end_ : node) : list node :=
  range_nodes d (range_fuel d start) (nextSibling d end_) (Some start).

(** [end_] is reachable from [start] by next-sibling links, through the
    nodes [l] ([start] first, [end_] last). *)
Inductive sibling_path (d : DOM) : node -> node -> list node -> Prop :=
| sibling_path_end (n : node) : sibling_path d n n [n]
| sibling_path_next (n m e : node) (l : list node) :
    nextSibling d n = Some m ->
    sibling_path d m e l ->
    sibling_path d n e (n :: l).

(** The registration that [attach] makes for a binding on a node. *)
Definition listener_on (b : Binding) (event_data : object_ref) (n : node)
  : Registration :=
  mkRegistration n (rewrittenEventType b) liveui
    (Delegated (mkListener b n event_data)).

(** How many registrations of a registry sit on a node. *)
Definition count_on (n : node) (reg : Registry) : nat :=
  List.length (filter (fun r => Nat.eqb (r_node r) n) reg).

(** How many of the invocations call a given callback. *)
Definition count_calls (cb : callback) (calls : list Invocation) : nat :=
  List.length (filter (fun i => Nat.eqb (inv_callback i) cb) calls).

(** A delegated listener is registered on the node it was made for. *)
Definition well_placed (reg : Registry) : Prop :=
  forall r l, In r reg -> r_handler r = Delegated l -> l_renderNode l = r_node r.

(** The delegated listeners are the ones of the fixed namespace. *)
Definition delegated_under_liveui (reg : Registry) : Prop :=
  forall r l, In r reg -> r_handler r = Delegated l -> r_namespace r = liveui.

(** ** Well-formed specs

    The shape of the clauses that the grammar of event specs intends:
    words separated by single spaces, clauses separated by a comma and
    a space. *)

(** No character of [s] is white space. *)
Fixpoint no_ws (s : string) : bool :=
  match s with
  | EmptyString => true
  | String c s' => negb (is_ws c) && no_ws s'
  end.

(** A token: not empty, no white space. *)
Definition is_token (t : string) : bool :=
  negb (String.eqb t EmptyString) && no_ws t.

Fixpoint ends_with_comma (s : string) : bool :=
  match s with
  | EmptyString => false
  | String c EmptyString => is_comma c
  | String _ s' => ends_with_comma s'
  end.

(** A word: a token that does not end in a comma. *)
Definition is_word (t : string) : bool :=
  is_token t && negb (ends_with_comma t).

(** No comma of [s] is followed by white space. *)
Fixpoint no_sep (s : string) : bool :=
  match s with
  | EmptyString => true
  | String c s' => negb (is_comma c && starts_with_ws s') && no_sep s'
  end.

(** A clause that the clause separator leaves whole. *)
Definition clean_clause (c : string) : bool :=
  no_sep c && negb (starts_with_ws c).

(** A clause as written: the event type and the words of the
    selector. *)
Definition write_clause (item : string * list string) : string :=
  join_space (fst item :: snd item).

Definition write_spec (items : list (string * list string)) : string :=
  String.concat ", " (map write_clause items).

Definition item_words (item : string * list string) : bool :=
  is_word (fst item) && forallb is_word (snd item).

(** [start] and every sibling that follows it. *)
Definition siblings_from (d : DOM) (start : node) : list node :=
  range_nodes d (range_fuel d start) None (Some start).

(** [resetEvents] on each node of a list, in order. *)
Definition reset_all (l : list node) (reg : Registry) : Registry :=
  fold_left (fun reg n => resetEvents n reg) l reg.

(** The event that [wireNode] wires on a node, if any. *)
Definition wired_event (d : DOM) (n : node) : option string :=
  if String.eqb (nodeName d n) "INPUT" then
    if String.eqb (inputType d n) "checkbox"
       || String.eqb (inputType d n) "radio"
    then Some "onpropertychange" else Some "onchange"
  else if String.eqb (nodeName d n) "FORM" then Some "onsubmit"
  else None.

(** [wireNode m] wires the event [ev] on the node [n]. *)
Definition wires (d : DOM) (m n : node) (ev : string) : bool :=
  Nat.eqb m n
  && match wired_event d m with
     | Some e => String.eqb e ev
     | None => false
     end.

(** The nodes that one run of [wireIEChangeSubmitHack] passes to
    [wireNode], in order: each node of the range, followed by what
    [getElementsByTagName] gives for it when it has a child. *)
Definition wire_targets (d : DOM) (start end_ : node) : list node :=
  flat_map (fun x =>
              x :: match firstChild d x with
                   | Some _ => getElementsByTagName d x "INPUT"
                               ++ getElementsByTagName d x "FORM"
                   | None => []
                   end)
    (sibling_range d start end_).

(** An attachment of a handler other than [changeSubmitHandlerIE]. *)
Definition is_foreign (a : Attachment) : bool :=
  negb (ie_handler_eqb (a_handler a) ChangeSubmitHandlerIE).

(** ** The bubble resolver in the words of the specification

    Whether a binding bound on the node [n] fires for an event: always
    when it has no selector; otherwise when a node is in the match set
    of the selector under the context, the parent of [n], among the
    eligible nodes: the nodes from the origin upward, strictly below
    the context, and only the first of them, the origin itself, for a
    binding that does not bubble. *)
Definition spec_resolver_fires (d : DOM)
  (find : option node -> string -> list node) (b : Binding) (n : node)
  (evt : Event) : bool :=
  if truthy (selector b) then
    let context := parentNode d n in
    let matched := find context (selector b) in
    let path := parent_path d context (ev_target evt) in
    let eligible := if bubbles b then path else firstn 1 path in
    existsb (fun x => contains matched (Some x)) eligible
  else true.

(** The bindings that an event matches, with the bound node of each:
    for each node on the propagation path of the event that is a node
    of the range, the bindings in order whose rewritten type is the
    type the event is delivered under and whose resolver fires. *)
Definition spec_matching_bindings (d : DOM)
  (find : option node -> string -> list node) (bs : list Binding)
  (l : list node) (evt : Event) : list (node * Binding) :=
  flat_map
    (fun n =>
       if existsb (Nat.eqb n) l then
         map (pair n)
           (filter (fun b =>
                      String.eqb (rewrittenEventType b) (ev_type evt)
                      && spec_resolver_fires d find b n evt) bs)
       else [])
    (ancestors_or_self d (ev_target evt)).

(** The invocation that a matching binding owes: its callback, on the
    event data, with the event under the declared type. *)
Definition call_of (event_data : object_ref) (evt : Event)
  (nb : node * Binding) : Invocation :=
  mkInvocation (b_callback (snd nb)) event_data
    (set_type evt (eventType (snd nb))).

(** ** A sample document

    [0] is the root and [1] its child; [2], [3] and [4] are the
    children of [1] in order; [5] is the child of [3] and [6] (a
    checkbox) the child of [5]; [4] is a form with the text input [7]. *)

Definition sample_parent (n : node) : option node :=
  match n with
  | 1 => Some 0
  | 2 | 3 | 4 => Some 1
  | 5 => Some 3
  | 6 => Some 5
  | 7 => Some 4
  | _ => None
  end.

Definition sample_next (n : node) : option node :=
  match n with
  | 2 => Some 3
  | 3 => Some 4
  | _ => None
  end.

Definition sample_first (n : node) : option node :=
  match n with
  | 0 => Some 1
  | 1 => Some 2
  | 3 => Some 5
  | 5 => Some 6
  | 4 => Some 7
  | _ => None
  end.

Definition sample_name (n : node) : string :=
  match n with
  | 4 => "FORM"
  | 6 | 7 => "INPUT"
  | _ => "DIV"
  end.

Definition sample_type (n : node) : string :=
  match n with
  | 6 => "checkbox"
  | 7 => "text"
  | _ => ""
  end.

Definition sample_tags (n : node) (tag : string) : list node :=
  if String.eqb tag "INPUT" then
    match n with
    | 0 | 1 => [6; 7]
    | 3 | 5 => [6]
    | 4 => [7]
    | _ => []
    end
  else if String.eqb tag "FORM" then
    match n with
    | 0 | 1 => [4]
    | _ => []
    end
  else [].

Definition sample_depth (n : node) : nat :=
  match n with
  | 1 => 1
  | 2 | 3 | 4 => 2
  | 5 | 7 => 3
  | 6 => 4
  | _ => 0
  end.

Definition sample_rank (n : node) : nat :=
  match n with
  | 2 => 2
  | 3 => 1
  | _ => 0
  end.

Definition sample_dom : DOM :=
  mkDOM sample_parent sample_next sample_first sample_name sample_type
    sample_tags sample_depth sample_rank
    ltac:(intros n p H;
          do 8 (try destruct n as [|n]; try discriminate H);
          injection H as <-; simpl; lia)
    ltac:(intros n m H;
          do 5 (try destruct n as [|n]; try discriminate H);
          injection H as <-; simpl; lia).

(** A selector matcher for the sample: [".save"] matches [6] and [5],
    [".form"] matches [4], under any context. *)
Definition sample_find (context : option node) (sel : string) : list node :=
  if String.eqb sel ".save" then [6; 5]
  else if String.eqb sel ".form" then [4]
  else [].

(** A listener for ["click .save"] bound on [3], one for
    ["focus .save"] bound on [4], and events that reach them. *)
Definition sample_click_listener : Listener :=
  mkListener (make_binding true "click" ".save" 7) 3 99.

Definition sample_focus_listener : Listener :=
  mkListener (make_binding true "focus" ".save" 7) 4 99.

Definition sample_click : Event := mkEvent "click" 6 0.

Definition sample_focusin : Event := mkEvent "focusin" 7 0.

Definition sample_events : option event_map :=
  Some [("click .save, focus .save", 7)].

Definition sample_foreign : Registration :=
  mkRegistration 3 "click" "tooltip" (Foreign 1).

Definition sample_submit : IEEvent := mkIEEvent "submit" (Some 4) "" None.

Definition sample_registry : Registry :=
  [listener_on (make_binding true "click" ".save" 7) 99 3;
   sample_foreign;
   listener_on (make_binding true "focus" ".save" 7) 99 3].

(** * Properties *)

(** ** Parsing *)

Lemma split_ws_go_nonempty (s : string) :
  forall in_sep cur, split_ws_go in_sep cur s <> [].
Proof.
  induction s as [|c s IH]; intros in_sep cur; simpl.
  - discriminate.
  - destruct (is_ws c); [destruct in_sep|]; try apply IH; discriminate.
Qed.

Lemma split_ws_nonempty (s : string) : split_ws s <> [].
Proof. apply split_ws_go_nonempty. Qed.

(** The guard on [parts.length] never fires: every clause, the empty
    one included, yields a binding. *)
Lemma parse_clause_some (legacy : bool) (cb : callback) (clause : string) :
  exists b, parse_clause legacy cb clause = Some b.
Proof.
  unfold parse_clause.
  destruct (split_ws clause) as [|ty parts] eqn:E.
  - now apply split_ws_nonempty in E.
  - eauto.
Qed.

Lemma clause_bindings_length (legacy : bool) (cb : callback) (clause : string) :
  List.length (clause_bindings legacy cb clause) = 1.
Proof.
  unfold clause_bindings.
  destruct (parse_clause_some legacy cb clause) as [b ->]. reflexivity.
Qed.

(** Parsing keeps the clauses in order, one binding for each. *)
Lemma parse_spec_length (legacy : bool) (spec : string) (cb : callback) :
  List.length (parse_spec legacy spec cb) = List.length (split_clauses spec).
Proof.
  unfold parse_spec.
  induction (split_clauses spec) as [|c cs IH]; simpl; [reflexivity|].
  rewrite length_app, clause_bindings_length, IH. reflexivity.
Qed.

Lemma make_binding_fields (legacy : bool) (ty sel : string) (cb : callback) :
  make_binding legacy ty sel cb
  = mkBinding ty (fst (rewriteEventType legacy ty))
      (snd (rewriteEventType legacy ty)) sel cb.
Proof.
  unfold make_binding. destruct (rewriteEventType legacy ty); reflexivity.
Qed.

(** C3, at the input [{"click .save, ": cb}]: the spec string ends in a
    separator, so its second clause is empty.  The empty clause splits
    into the one part [""], the guard on [parts.length] does not fire,
    and the clause yields a binding whose event type is the empty
    string, where the claim says that an empty clause yields none. *)
Theorem parse_events_empty_clause (legacy : bool) (cb : callback) :
  split_clauses "click .save, " = ["click .save"; ""]
  /\ split_ws "" = [""]
  /\ parse_events legacy (Some [("click .save, ", cb)])
     = [mkBinding "click" "click" true ".save" cb;
        mkBinding "" "" true "" cb].
Proof. repeat split; reflexivity. Qed.

(** C4: the [switch] on the event type computes the rewriting table:
    [focus] and [blur] become [focusin] and [focusout] and do not
    bubble; [change] and [submit] become [cellchange] and
    [datasetcomplete] under the compatibility layer only; every other
    type is unchanged and bubbles. *)
Theorem rewriteEventType_table (legacy : bool) (ty : string) :
  rewriteEventType legacy ty = table_lookup legacy ty.
Proof.
  unfold rewriteEventType, table_lookup, rewriting_table.
  cbn [List.find row_input].
  rewrite (String.eqb_sym "focus"), (String.eqb_sym "blur"),
    (String.eqb_sym "change"), (String.eqb_sym "submit").
  destruct (String.eqb ty "focus"); [reflexivity|].
  destruct (String.eqb ty "blur"); [reflexivity|].
  destruct (String.eqb ty "change"); [destruct legacy; reflexivity|].
  destruct (String.eqb ty "submit"); [destruct legacy; reflexivity|].
  reflexivity.
Qed.

Lemma rewriteEventType_other (legacy : bool) (ty : string) :
  ty <> "focus" -> ty <> "blur" -> ty <> "change" -> ty <> "submit" ->
  rewriteEventType legacy ty = (ty, true).
Proof.
  intros H1 H2 H3 H4. unfold rewriteEventType.
  apply String.eqb_neq in H1, H2, H3, H4.
  now rewrite H1, H2, H3, H4.
Qed.

Lemma bubbles_false_iff (legacy : bool) (ty : string) :
  snd (rewriteEventType legacy ty) = false <-> ty = "focus" \/ ty = "blur".
Proof.
  unfold rewriteEventType.
  destruct (String.eqb_spec ty "focus") as [->|H1]; [simpl; tauto|].
  destruct (String.eqb_spec ty "blur") as [->|H2]; [simpl; tauto|].
  destruct (String.eqb ty "change"), (String.eqb ty "submit"); simpl;
    split; try discriminate; intros [H|H]; contradiction.
Qed.

(** ** The delegated listener *)

Lemma same_node_eq (a b : option node) : same_node a b = true <-> a = b.
Proof.
  destruct a as [x|], b as [y|]; simpl; split; try congruence.
  - intros H. apply Nat.eqb_eq in H. congruence.
  - intros [= ->]. apply Nat.eqb_refl.
Qed.

Lemma same_node_neq (a b : option node) : same_node a b = false <-> a <> b.
Proof.
  rewrite <- same_node_eq. destruct (same_node a b); split; congruence.
Qed.

Lemma contains_In (results : list node) (c : node) :
  contains results (Some c) = true <-> In c results.
Proof.
  simpl. rewrite existsb_exists. split.
  - intros (x & Hx & E). apply Nat.eqb_eq in E. now subst.
  - intros H. exists c. split; [assumption | apply Nat.eqb_refl].
Qed.

Section DelegationFacts.

Variable d : DOM.
Variable find : option node -> string -> list node.

(** Every node of the path from [c] is [c] or lies above it. *)
Lemma path_below_depth (k : nat) (ctx : option node) :
  forall c r, In r (path_below d k ctx (Some c)) -> depth d r <= depth d c.
Proof.
  induction k as [|k IH]; intros c r H; cbn [path_below] in H;
    [contradiction|].
  destruct (same_node (Some c) ctx); [contradiction|].
  destruct H as [->|H]; [lia|].
  destruct (parentNode d c) as [p|] eqn:Ep.
  - apply IH in H. pose proof (parent_depth d c p Ep). lia.
  - destruct k; contradiction.
Qed.

Lemma path_below_none (k : nat) (ctx : option node) :
  path_below d k ctx None = [].
Proof. destruct k; reflexivity. Qed.

Lemma path_below_context (k : nat) (ctx : option node) :
  path_below d k ctx ctx = [].
Proof.
  destruct k; [reflexivity|]. cbn [path_below].
  destruct ctx as [c|]; [|reflexivity].
  now rewrite (proj2 (same_node_eq (Some c) (Some c)) eq_refl).
Qed.

Lemma selector_walk_step (fuel : nat) (ctx : option node)
  (results : list node) (b : bool) (cur : option node) :
  selector_walk d (S fuel) ctx results b cur
  = if same_node cur ctx then Ret None
    else if contains results cur then Ret cur
    else if negb b then Ret None
    else match cur with
         | None => TypeError
         | Some c => selector_walk d fuel ctx results b (parentNode d c)
         end.
Proof. reflexivity. Qed.

Lemma path_below_step (k : nat) (ctx : option node) (c : node) :
  path_below d (S k) ctx (Some c)
  = if same_node (Some c) ctx then []
    else c :: path_below d k ctx (parentNode d c).
Proof. reflexivity. Qed.

(** The walk of a bubbling type, started at a node [c] below the
    bound node [r], stops at the first node of the path from [c] to
    the context that the selector matched, or reaches the context. *)
Lemma selector_walk_bubbling (results : list node) (r : node) :
  forall k c,
    depth d c < k ->
    In r (path_below d k None (Some c)) ->
    selector_walk d (S k) (parentNode d r) results true (Some c)
    = Ret (List.find (fun n => contains results (Some n))
             (path_below d k (parentNode d r) (Some c))).
Proof.
  induction k as [|k IH]; intros c Hk Hr; [lia|].
  assert (Hctx : same_node (Some c) (parentNode d r) = false).
  { apply same_node_neq. intros E. symmetry in E.
    apply parent_depth in E. apply path_below_depth in Hr. lia. }
  rewrite selector_walk_step, path_below_step, Hctx.
  cbn [List.find].
  destruct (contains results (Some c)) eqn:Ec; [reflexivity|].
  cbn [negb].
  rewrite path_below_step in Hr. cbn [same_node] in Hr.
  destruct Hr as [->|Hr].
  - rewrite path_below_context, selector_walk_step.
    now rewrite (proj2 (same_node_eq _ _) eq_refl).
  - destruct (parentNode d c) as [p|] eqn:Ep.
    + apply IH; [|assumption].
      pose proof (parent_depth d c p Ep). lia.
    + rewrite path_below_none in Hr. contradiction.
Qed.

(** The path from the origin to the context of a bound node that the
    event reaches is the part of the propagation path up to that
    bound node: the context and what lies above it are not on it. *)
Lemma parent_path_prefix (r : node) :
  forall k c,
    In r (path_below d k None (Some c)) ->
    exists below above,
      path_below d k (parentNode d r) (Some c) = below ++ [r]
      /\ path_below d k None (Some c) = below ++ r :: above.
Proof.
  induction k as [|k IH]; intros c Hr; [contradiction|].
  assert (Hctx : same_node (Some c) (parentNode d r) = false).
  { apply same_node_neq. intros E. symmetry in E.
    apply parent_depth in E. apply path_below_depth in Hr. lia. }
  rewrite !path_below_step, Hctx. rewrite path_below_step in Hr.
  cbn [same_node] in *.
  destruct Hr as [->|Hr].
  - exists [], (path_below d k None (parentNode d r)).
    now rewrite path_below_context.
  - destruct (parentNode d c) as [p|] eqn:Ep.
    + destruct (IH p Hr) as (below & above & E1 & E2).
      exists (c :: below), above. now rewrite E1, E2.
    + rewrite path_below_none in Hr. contradiction.
Qed.

Lemma find_some_iff (results path : list node) :
  List.find (fun n => contains results (Some n)) path <> None
  <-> exists n, In n path /\ In n results.
Proof.
  split.
  - destruct (List.find _ path) as [n|] eqn:E; [intros _|congruence].
    apply find_some in E. destruct E as [E1 E2].
    exists n. split; [assumption | now apply contains_In].
  - intros (n & Hp & Hr) E.
    apply (find_none _ _ E) in Hp. apply contains_In in Hr. congruence.
Qed.

(** C1: a listener of a bubbling binding with a non-empty selector,
    run for an event that reaches its bound node from the origin [t]:
    the path from [t] (inclusive) to the context (exclusive) is the
    propagation path up to the bound node; the walk returns the first
    node of it, going up from [t], that is in the match set of the
    selector under the context; and the callback is invoked if and only
    if the path has such a node. *)
Theorem bubbling_listener_fires_iff_path_matches
  (l : Listener) (evt : Event) :
  bubbles (l_binding l) = true ->
  truthy (selector (l_binding l)) = true ->
  In (l_renderNode l) (ancestors_or_self d (ev_target evt)) ->
  let contextNode := parentNode d (l_renderNode l) in
  let results := find contextNode (selector (l_binding l)) in
  let path := parent_path d contextNode (ev_target evt) in
  let selectorMatch := List.find (fun n => contains results (Some n)) path in
  (exists below above,
     path = below ++ [l_renderNode l]
     /\ ancestors_or_self d (ev_target evt)
        = below ++ l_renderNode l :: above)
  /\ selector_walk d (walk_fuel d (ev_target evt)) contextNode results true
       (Some (ev_target evt)) = Ret selectorMatch
  /\ (exists out, listener d find l evt = Ret out)
  /\ (invoked (listener d find l evt) = true
      <-> exists n, In n path /\ In n results).
Proof.
  intros Hb Hs Hr contextNode results path selectorMatch.
  assert (W : selector_walk d (walk_fuel d (ev_target evt)) contextNode
                results true (Some (ev_target evt)) = Ret selectorMatch).
  { apply selector_walk_bubbling; [lia | exact Hr]. }
  split; [exact (parent_path_prefix _ _ _ Hr)|].
  split; [exact W|].
  unfold listener. rewrite Hs, Hb. cbn [set_type ev_target].
  fold contextNode. fold results. rewrite W. cbn [bind].
  pose proof (find_some_iff results path) as F. fold selectorMatch in F.
  destruct selectorMatch as [m|]; cbn [invoked]; split; eauto.
  - split; [intros _; apply F; discriminate | reflexivity].
  - split; [discriminate|]. intros H. apply F in H. congruence.
Qed.

(** C2: a listener of a [focus] or [blur] binding with a non-empty
    selector: the binding does not bubble, the loop body of the walk
    runs at most once (any budget gives what a budget of one step
    gives), and the callback is invoked exactly when the origin
    itself is in the match set; an origin that is not matched never
    invokes it, whatever its ancestors are. *)
Theorem nonbubbling_listener_checks_origin_only
  (legacy : bool) (ty sel : string) (cb : callback) (renderNode : node)
  (event_data : object_ref) (evt : Event) :
  ty = "focus" \/ ty = "blur" ->
  truthy sel = true ->
  let l := mkListener (make_binding legacy ty sel cb) renderNode event_data in
  let contextNode := parentNode d renderNode in
  let results := find contextNode sel in
  let t := ev_target evt in
  bubbles (l_binding l) = false
  /\ (forall fuel cur,
        selector_walk d (S fuel) contextNode results false cur
        = selector_walk d 1 contextNode results false cur)
  /\ (exists out, listener d find l evt = Ret out)
  /\ (invoked (listener d find l evt) = true
      <-> In t results /\ Some t <> contextNode).
Proof.
  intros Hty Hs l contextNode results t.
  assert (Hb : bubbles (l_binding l) = false).
  { unfold l. cbn [l_binding]. rewrite make_binding_fields. cbn [bubbles].
    now apply bubbles_false_iff. }
  split; [exact Hb|]. split.
  { intros fuel cur. rewrite !selector_walk_step. reflexivity. }
  assert (Hsel : selector (l_binding l) = sel).
  { unfold l. cbn [l_binding]. now rewrite make_binding_fields. }
  unfold listener. rewrite Hsel, Hs, Hb. cbn [set_type ev_target l_renderNode l].
  fold contextNode. fold results. fold t.
  unfold walk_fuel. rewrite selector_walk_step. cbn [negb].
  destruct (same_node (Some t) contextNode) eqn:Ectx; cbn [bind invoked].
  - split; eauto. split; [discriminate|].
    intros [_ H]. apply same_node_eq in Ectx. contradiction.
  - apply same_node_neq in Ectx.
    destruct (contains results (Some t)) eqn:Ec; cbn [bind invoked].
    + apply contains_In in Ec. split; eauto. tauto.
    + split; eauto. split; [discriminate|].
      intros [H _]. apply contains_In in H. congruence.
Qed.

(** What a listener that returns has done. *)
Lemma listener_out (l : Listener) (evt : Event)
  (out : Event * option Invocation) :
  listener d find l evt = Ret out ->
  fst out = set_type evt (eventType (l_binding l))
  /\ (snd out = None
      \/ snd out = Some (mkInvocation (b_callback (l_binding l))
                           (l_event_data l)
                           (set_type evt (eventType (l_binding l))))).
Proof.
  unfold listener. intros H.
  destruct (truthy (selector (l_binding l))).
  - destruct (selector_walk _ _ _ _ _ _) as [[m|]| |]; cbn [bind] in H;
      try discriminate; injection H as <-; cbn [fst snd]; auto.
  - injection H as <-. cbn [fst snd]. auto.
Qed.

(** C8, as amended: a listener that returns has set the type of the
    event to the declared [eventType] of its binding, whether or not
    the callback was invoked, and has left the other fields of the
    event as they were; if it invoked the callback, it did so once,
    with [event_data] as [this] and that event as argument.  The
    event is as delivered when its type was the declared one. *)
Theorem listener_effect (l : Listener) (evt : Event)
  (out : Event * option Invocation) :
  listener d find l evt = Ret out ->
  let b := l_binding l in
  ev_type (fst out) = eventType b
  /\ ev_target (fst out) = ev_target evt
  /\ ev_rest (fst out) = ev_rest evt
  /\ (snd out = None
      \/ snd out = Some (mkInvocation (b_callback b) (l_event_data l)
                           (set_type evt (eventType b))))
  /\ (ev_type evt = eventType b -> fst out = evt).
Proof.
  intros H b. apply listener_out in H. fold b in H.
  destruct H as [-> E]. cbn [set_type ev_type ev_target ev_rest].
  repeat split; try exact E.
  intros <-. now destruct evt.
Qed.

(** The budget of the walk is never exhausted: a walk passes through
    the origin, its ancestors and [null] at most. *)
Lemma selector_walk_budget (ctx : option node) (results : list node)
  (b : bool) :
  forall fuel cur,
    match cur with Some c => depth d c + 2 <= fuel | None => 1 <= fuel end ->
    selector_walk d fuel ctx results b cur <> Timeout.
Proof.
  induction fuel as [|fuel IH]; intros cur Hf.
  - destruct cur; lia.
  - rewrite selector_walk_step.
    destruct (same_node cur ctx); [discriminate|].
    destruct (contains results cur); [discriminate|].
    destruct (negb b); [discriminate|].
    destruct cur as [c|]; [|discriminate].
    apply IH. destruct (parentNode d c) as [p|] eqn:E; [|lia].
    pose proof (parent_depth d c p E). lia.
Qed.

Lemma listener_budget (l : Listener) (evt : Event) :
  listener d find l evt <> Timeout.
Proof.
  unfold listener. destruct (truthy _); [|discriminate].
  pose proof (selector_walk_budget
                (parentNode d (l_renderNode l))
                (find (parentNode d (l_renderNode l)) (selector (l_binding l)))
                (bubbles (l_binding l))
                (walk_fuel d (ev_target evt)) (Some (ev_target evt))) as H.
  cbn [set_type ev_target].
  destruct (selector_walk _ _ _ _ _ _) as [[m|]| |]; cbn [bind];
    try discriminate.
  exfalso. apply H; [unfold walk_fuel; lia | reflexivity].
Qed.

(** The path does not depend on its budget once the budget exceeds the
    depth of the start, and it is the path of the parent links. *)
Lemma path_below_budget (ctx : option node) :
  forall k k' c,
    depth d c < k -> depth d c < k' ->
    path_below d k ctx (Some c) = path_below d k' ctx (Some c).
Proof.
  induction k as [|k IH]; intros k' c Hk Hk'; [lia|].
  destruct k' as [|k']; [lia|]. rewrite !path_below_step.
  destruct (same_node (Some c) ctx); [reflexivity|]. f_equal.
  destruct (parentNode d c) as [p|] eqn:E.
  - pose proof (parent_depth d c p E). apply IH; lia.
  - now rewrite !path_below_none.
Qed.

Lemma ancestors_or_self_unfold (t : node) :
  ancestors_or_self d t
  = t :: match parentNode d t with
         | Some p => ancestors_or_self d p
         | None => []
         end.
Proof.
  unfold ancestors_or_self, parent_path. rewrite path_below_step.
  cbn [same_node]. f_equal.
  destruct (parentNode d t) as [p|] eqn:E.
  - pose proof (parent_depth d t p E). apply path_below_budget; lia.
  - apply path_below_none.
Qed.

End DelegationFacts.

(** ** The binder *)

Section BinderFacts.

Variable d : DOM.
Variable find : option node -> string -> list node.
Variable legacy : bool.

(** The loop over a range ends within its budget and runs its body on
    the nodes of [range_nodes], in order. *)
Lemma for_siblings_range {St : Type} (after : option node)
  (body : node -> St -> St) :
  forall fuel n s,
    match n with Some x => rank d x + 2 <= fuel | None => 1 <= fuel end ->
    for_siblings d fuel after body n s
    = Ret (fold_left (fun s x => body x s) (range_nodes d fuel after n) s).
Proof.
  induction fuel as [|fuel IH]; intros n s Hf.
  - destruct n; lia.
  - cbn [for_siblings range_nodes].
    destruct n as [x|]; [|reflexivity].
    destruct (same_node (Some x) after); [reflexivity|].
    cbn [fold_left]. apply IH.
    destruct (nextSibling d x) as [m|] eqn:E; [|lia].
    pose proof (sibling_rank d x m E). lia.
Qed.

Lemma sibling_path_rank (start end_ : node) (l : list node) :
  sibling_path d start end_ l ->
  rank d end_ <= rank d start
  /\ List.length l + rank d end_ <= S (rank d start)
  /\ forall x, In x l -> rank d end_ <= rank d x.
Proof.
  induction 1 as [n | n m e l Hn Hp (IH1 & IH2 & IH3)].
  - cbn. repeat split; try lia. intros x [<-|[]]. lia.
  - pose proof (sibling_rank d n m Hn). cbn [List.length].
    repeat split; try lia.
    intros x [<-|Hx]; [lia | now apply IH3].
Qed.

(** On a range whose end is reachable from its start the loop visits
    exactly the nodes from [start] to [end_]. *)
Lemma range_nodes_path (start end_ : node) (l : list node) :
  sibling_path d start end_ l ->
  forall fuel, List.length l < fuel ->
    range_nodes d fuel (nextSibling d end_) (Some start) = l.
Proof.
  intros Hp.
  assert (Hafter : forall x, In x l ->
            same_node (Some x) (nextSibling d end_) = false).
  { intros x Hx. apply same_node_neq. intros E. symmetry in E.
    apply sibling_rank in E.
    apply (proj2 (proj2 (sibling_path_rank _ _ _ Hp))) in Hx. lia. }
  induction Hp as [n | n m e l Hn Hp IH]; intros fuel Hf.
  - destruct fuel as [|[|fuel]]; cbn [List.length] in Hf; try lia.
    cbn [range_nodes]. rewrite (Hafter n (or_introl eq_refl)).
    destruct (nextSibling d n) as [m|]; [|reflexivity].
    now rewrite (proj2 (same_node_eq _ _) eq_refl).
  - destruct fuel as [|fuel]; cbn [List.length] in Hf; [lia|].
    cbn [range_nodes]. rewrite (Hafter n (or_introl eq_refl)), Hn.
    f_equal. apply IH; [|lia].
    intros x Hx. apply Hafter. now right.
Qed.

Lemma sibling_range_path (start end_ : node) (l : list node) :
  sibling_path d start end_ l -> sibling_range d start end_ = l.
Proof.
  intros Hp. apply range_nodes_path; [exact Hp|].
  pose proof (sibling_path_rank _ _ _ Hp). unfold range_fuel. lia.
Qed.

Lemma sibling_path_NoDup (start end_ : node) (l : list node) :
  sibling_path d start end_ l -> NoDup l.
Proof.
  induction 1 as [n | n m e l Hn Hp IH].
  - constructor; [intros [] | constructor].
  - constructor; [|exact IH].
    intros Hin.
    assert (R : forall a b k, sibling_path d a b k ->
                  forall x, In x k -> rank d x <= rank d a).
    { clear. induction 1 as [a | a c b k Ha Hk IHk]; intros x Hx.
      - destruct Hx as [<-|[]]. lia.
      - pose proof (sibling_rank d a c Ha).
        destruct Hx as [<-|Hx]; [lia|]. apply IHk in Hx. lia. }
    apply (R _ _ _ Hp) in Hin.
    pose proof (sibling_rank d n m Hn). lia.
Qed.

Lemma fold_attach (b : Binding) (event_data : object_ref) (l : list node) :
  forall reg,
    fold_left (fun s x => attach b event_data x s) l reg
    = reg ++ map (listener_on b event_data) l.
Proof.
  induction l as [|x l IH]; intros reg; cbn [fold_left map].
  - now rewrite app_nil_r.
  - rewrite IH. unfold attach, event_add, listener_on.
    now rewrite <- app_assoc.
Qed.

Lemma attach_clause_installs (start end_ : node) (cb : callback)
  (event_data : object_ref) (clause : string) (reg : Registry) :
  attach_clause d legacy start end_ cb event_data clause reg
  = Ret (reg ++ flat_map (fun b => map (listener_on b event_data)
                                     (sibling_range d start end_))
                  (clause_bindings legacy cb clause)).
Proof.
  unfold attach_clause, clause_bindings.
  destruct (parse_clause legacy cb clause) as [b|]; cbn [flat_map].
  - rewrite for_siblings_range by (unfold range_fuel; lia).
    now rewrite fold_attach, app_nil_r.
  - now rewrite app_nil_r.
Qed.

Lemma foldM_installs {A : Type} (f : A -> Registry -> result Registry)
  (g : A -> list Registration) :
  (forall a reg, f a reg = Ret (reg ++ g a)) ->
  forall l reg, foldM f l reg = Ret (reg ++ flat_map g l).
Proof.
  intros Hf. induction l as [|a l IH]; intros reg; cbn [foldM flat_map].
  - now rewrite app_nil_r.
  - rewrite Hf. cbn [bind]. rewrite IH. now rewrite app_assoc.
Qed.

(** [attachEvents] always returns, and appends to the registry one
    registration for each binding of the event map on each node the
    loop visits. *)
Lemma attachEvents_installs (start end_ : node) (events : option event_map)
  (event_data : object_ref) (reg : Registry) :
  attachEvents d legacy start end_ events event_data reg
  = Ret (reg ++ flat_map (fun b => map (listener_on b event_data)
                                     (sibling_range d start end_))
                  (parse_events legacy events)).
Proof.
  unfold attachEvents, parse_events.
  set (m := match events with Some m => m | None => [] end).
  rewrite (foldM_installs _
             (fun sc => flat_map (fun b => map (listener_on b event_data)
                                             (sibling_range d start end_))
                          (parse_spec legacy (fst sc) (snd sc)))).
  - f_equal. f_equal. clear. induction m as [|[spec cb] m IH]; cbn [flat_map].
    + reflexivity.
    + rewrite flat_map_app. now rewrite IH.
  - intros [spec cb] reg'. cbn [fst snd]. unfold parse_spec.
    rewrite (foldM_installs _
               (fun clause => flat_map (fun b => map (listener_on b event_data)
                                                   (sibling_range d start end_))
                                (clause_bindings legacy cb clause))).
    + f_equal. f_equal. clear.
      induction (split_clauses spec) as [|c cs IH]; cbn [flat_map].
      * reflexivity.
      * rewrite flat_map_app. now rewrite IH.
    + intros clause reg''. apply attach_clause_installs.
Qed.

Lemma count_on_listeners (b : Binding) (event_data : object_ref) (n : node)
  (l : list node) :
  NoDup l ->
  count_on n (map (listener_on b event_data) l)
  = if in_dec Nat.eq_dec n l then 1 else 0.
Proof.
  unfold count_on. induction 1 as [|x l Hx Hl IH]; [reflexivity|].
  cbn [map filter listener_on r_node].
  destruct (Nat.eqb_spec x n) as [->|Hne].
  - cbn [List.length]. rewrite IH.
    destruct (in_dec Nat.eq_dec n (n :: l)) as [_|H];
      [|exfalso; apply H; now left].
    destruct (in_dec Nat.eq_dec n l); [contradiction | reflexivity].
  - rewrite IH.
    destruct (in_dec Nat.eq_dec n l) as [H|H],
             (in_dec Nat.eq_dec n (x :: l)) as [H'|H']; try reflexivity.
    + exfalso. apply H'. now right.
    + destruct H' as [E|H']; [congruence | contradiction].
Qed.

Lemma count_on_app (n : node) (r1 r2 : Registry) :
  count_on n (r1 ++ r2) = count_on n r1 + count_on n r2.
Proof. unfold count_on. now rewrite filter_app, length_app. Qed.

Lemma count_on_installed (event_data : object_ref) (n : node)
  (l : list node) (bs : list Binding) :
  NoDup l ->
  count_on n (flat_map (fun b => map (listener_on b event_data) l) bs)
  = if in_dec Nat.eq_dec n l then List.length bs else 0.
Proof.
  intros Hl. induction bs as [|b bs IH]; cbn [flat_map List.length].
  - now destruct (in_dec Nat.eq_dec n l).
  - rewrite count_on_app, IH, (count_on_listeners _ _ _ _ Hl).
    now destruct (in_dec Nat.eq_dec n l).
Qed.

(** C5: on a range whose end is reachable from its start through the
    nodes [l], [attachEvents] returns the registry extended, for each
    binding parsed from the event map in order, by one listener of the
    binding's rewritten type under the namespace [liveui] on each node
    of [l] in order; the listeners of one binding count one on every
    node of the range and none on any other node, so a node of the
    range gets as many listeners as there are bindings and any other
    node gets none. *)
Theorem attachEvents_installs_on_range (start end_ : node) (l : list node)
  (events : option event_map) (event_data : object_ref) (reg : Registry) :
  sibling_path d start end_ l ->
  let installed_for := fun b : Binding =>
    map (fun n => mkRegistration n (rewrittenEventType b) liveui
                    (Delegated (mkListener b n event_data))) l in
  let installed := flat_map installed_for (parse_events legacy events) in
  attachEvents d legacy start end_ events event_data reg
  = Ret (reg ++ installed)
  /\ (forall b n,
        count_on n (installed_for b)
        = if in_dec Nat.eq_dec n l then 1 else 0)
  /\ (forall n,
        count_on n installed
        = if in_dec Nat.eq_dec n l
          then List.length (parse_events legacy events) else 0).
Proof.
  intros Hp installed_for installed.
  pose proof (sibling_path_NoDup _ _ _ Hp) as Hl.
  split; [|split].
  - rewrite attachEvents_installs, (sibling_range_path _ _ _ Hp).
    reflexivity.
  - intros b n. apply (count_on_listeners b event_data n l Hl).
  - intros n. apply (count_on_installed event_data n l _ Hl).
Qed.

(** *** Dispatch *)

Lemma listener_set_type (l : Listener) (evt : Event) (ty : string) :
  listener d find l (set_type evt ty) = listener d find l evt.
Proof. reflexivity. Qed.

Lemma listener_fst (l : Listener) (evt : Event)
  (out : Event * option Invocation) :
  listener d find l evt = Ret out ->
  fst out = set_type evt (eventType (l_binding l)).
Proof.
  intros H. now apply listener_out in H.
Qed.

Lemma run_handlers_set_type (hs : list Registration) :
  forall evt ty, run_handlers d find hs (set_type evt ty)
                 = run_handlers d find hs evt.
Proof.
  induction hs as [|r hs IH]; intros evt ty; [reflexivity|].
  cbn [run_handlers]. destruct (r_handler r) as [l|id]; [|apply IH].
  now rewrite listener_set_type.
Qed.

(** Handlers that run later on the same node see what the earlier
    ones would have seen: a listener reads the target of the event,
    never its type. *)
Lemma run_handlers_app (h1 h2 : list Registration) (evt : Event) :
  run_handlers d find (h1 ++ h2) evt
  = (c1 <- run_handlers d find h1 evt ;;
     c2 <- run_handlers d find h2 evt ;;
     Ret (c1 ++ c2)).
Proof.
  revert evt. induction h1 as [|r h1 IH]; intros evt.
  - cbn [app run_handlers bind].
    destruct (run_handlers d find h2 evt); reflexivity.
  - cbn [app run_handlers]. destruct (r_handler r) as [l|id]; [|apply IH].
    destruct (listener d find l evt) as [out| |] eqn:E; cbn [bind];
      try reflexivity.
    rewrite IH. rewrite (listener_fst _ _ _ E), !run_handlers_set_type.
    destruct (run_handlers d find h1 evt) as [c1| |]; cbn [bind];
      try reflexivity.
    destruct (run_handlers d find h2 evt) as [c2| |]; cbn [bind];
      try reflexivity.
    now rewrite app_assoc.
Qed.

Lemma deliver_app (r1 r2 : Registry) (n : node) (evt : Event) :
  deliver d find (r1 ++ r2) n evt
  = (c1 <- deliver d find r1 n evt ;;
     c2 <- deliver d find r2 n evt ;;
     Ret (c1 ++ c2)).
Proof.
  unfold deliver, handlers_for. rewrite filter_app. apply run_handlers_app.
Qed.

Lemma count_calls_app (cb : callback) (c1 c2 : list Invocation) :
  count_calls cb (c1 ++ c2) = count_calls cb c1 + count_calls cb c2.
Proof. unfold count_calls. now rewrite filter_app, length_app. Qed.

(** Along a propagation path, the invocations that two registries
    cause together are the ones each causes alone. *)
Lemma deliver_along_app (r1 r2 : Registry) (evt : Event) :
  forall path c1 c2,
    deliver_along d find r1 path evt = Ret c1 ->
    deliver_along d find r2 path evt = Ret c2 ->
    exists c,
      deliver_along d find (r1 ++ r2) path evt = Ret c
      /\ forall cb, count_calls cb c = count_calls cb c1 + count_calls cb c2.
Proof.
  induction path as [|n path IH]; intros c1 c2 H1 H2; cbn [deliver_along] in *.
  - injection H1 as <-. injection H2 as <-. now exists [].
  - rewrite deliver_app.
    destruct (deliver d find r1 n evt) as [a1| |]; try discriminate.
    destruct (deliver d find r2 n evt) as [a2| |]; try discriminate.
    cbn [bind] in *.
    destruct (deliver_along d find r1 path evt) as [b1| |]; try discriminate.
    destruct (deliver_along d find r2 path evt) as [b2| |]; try discriminate.
    cbn [bind] in *. injection H1 as <-. injection H2 as <-.
    destruct (IH b1 b2 eq_refl eq_refl) as (c & -> & Hc). cbn [bind].
    eexists. split; [reflexivity|].
    intros cb. rewrite !count_calls_app, Hc. lia.
Qed.

(** A listener run for an event that reaches its bound node returns. *)
Lemma listener_returns (l : Listener) (evt : Event) :
  In (l_renderNode l) (ancestors_or_self d (ev_target evt)) ->
  exists out, listener d find l evt = Ret out.
Proof.
  intros Hr. destruct (truthy (selector (l_binding l))) eqn:Hs.
  - destruct (bubbles (l_binding l)) eqn:Hb.
    + unfold listener. rewrite Hs, Hb. cbn [set_type ev_target].
      rewrite (selector_walk_bubbling d _ _ _ _ (Nat.lt_succ_diag_r _) Hr).
      cbn [bind]. destruct (List.find _ _); eauto.
    + unfold listener. rewrite Hs, Hb. unfold walk_fuel.
      rewrite selector_walk_step. cbn [negb].
      destruct (same_node _ _); cbn [bind]; eauto.
      destruct (contains _ _); cbn [bind]; eauto.
  - unfold listener. rewrite Hs. eauto.
Qed.

Lemma run_handlers_returns (n : node) (hs : list Registration) :
  (forall r l, In r hs -> r_handler r = Delegated l -> l_renderNode l = n) ->
  forall evt, In n (ancestors_or_self d (ev_target evt)) ->
    exists calls, run_handlers d find hs evt = Ret calls.
Proof.
  induction hs as [|r hs IH]; intros Hw evt Hn; cbn [run_handlers]; eauto.
  assert (Hw' : forall r l, In r hs -> r_handler r = Delegated l ->
                  l_renderNode l = n)
    by (intros r' l' Hr'; apply Hw; now right).
  destruct (r_handler r) as [l|id] eqn:Eh; [|now apply IH].
  destruct (listener_returns l evt) as [out E].
  { now rewrite (Hw r l (or_introl eq_refl) Eh). }
  rewrite E. cbn [bind]. rewrite (listener_fst _ _ _ E), run_handlers_set_type.
  destruct (IH Hw' evt Hn) as [calls ->]. cbn [bind]. eauto.
Qed.

Lemma deliver_returns (reg : Registry) (n : node) (evt : Event) :
  well_placed reg ->
  In n (ancestors_or_self d (ev_target evt)) ->
  exists calls, deliver d find reg n evt = Ret calls.
Proof.
  intros Hw Hn. apply (run_handlers_returns n); [|exact Hn].
  intros r l Hr Eh. apply filter_In in Hr. destruct Hr as [Hr Hf].
  apply andb_prop in Hf. destruct Hf as [Hf _]. apply Nat.eqb_eq in Hf.
  rewrite <- Hf. now apply Hw.
Qed.

(** Firing an event on a registry of well-placed listeners returns. *)
Lemma fire_returns (reg : Registry) (evt : Event) :
  well_placed reg -> exists calls, fire d find reg evt = Ret calls.
Proof.
  intros Hw. unfold fire.
  assert (H : forall path,
            incl path (ancestors_or_self d (ev_target evt)) ->
            exists calls, deliver_along d find reg path evt = Ret calls).
  { induction path as [|n path IH]; intros Hi; cbn [deliver_along]; eauto.
    destruct (deliver_returns reg n evt Hw) as [c1 ->].
    { apply Hi. now left. }
    destruct IH as [c2 ->].
    { intros x Hx. apply Hi. now right. }
    cbn [bind]. eauto. }
  apply H. apply incl_refl.
Qed.

Lemma well_placed_app (r1 r2 : Registry) :
  well_placed r1 -> well_placed r2 -> well_placed (r1 ++ r2).
Proof.
  intros H1 H2 r l Hr. apply in_app_or in Hr.
  destruct Hr; [now apply H1 | now apply H2].
Qed.

Lemma installed_shape (event_data : object_ref) (l : list node)
  (bs : list Binding) (r : Registration) :
  In r (flat_map (fun b => map (listener_on b event_data) l) bs) ->
  exists b n, r = listener_on b event_data n.
Proof.
  intros H. apply in_flat_map in H. destruct H as (b & _ & H).
  apply in_map_iff in H. destruct H as (n & <- & _). eauto.
Qed.

Lemma installed_well_placed (event_data : object_ref) (l : list node)
  (bs : list Binding) :
  well_placed (flat_map (fun b => map (listener_on b event_data) l) bs).
Proof.
  intros r lis Hr Eh. apply installed_shape in Hr.
  destruct Hr as (b & n & ->). cbn in Eh. injection Eh as <-. reflexivity.
Qed.

Lemma installed_under_liveui (event_data : object_ref) (l : list node)
  (bs : list Binding) :
  delegated_under_liveui
    (flat_map (fun b => map (listener_on b event_data) l) bs).
Proof.
  intros r lis Hr _. apply installed_shape in Hr.
  destruct Hr as (b & n & ->). reflexivity.
Qed.

(** *** Unbinding *)

Lemma run_handlers_foreign (hs : list Registration) (evt : Event) :
  (forall r l, In r hs -> r_handler r <> Delegated l) ->
  run_handlers d find hs evt = Ret [].
Proof.
  induction hs as [|r hs IH]; intros H; [reflexivity|].
  cbn [run_handlers]. destruct (r_handler r) as [l|id] eqn:E.
  - exfalso. exact (H r l (or_introl eq_refl) E).
  - apply IH. intros r' l' Hr'. apply H. now right.
Qed.

Lemma filter_all {A : Type} (f : A -> bool) (l : list A) :
  (forall x, In x l -> f x = true) -> filter f l = l.
Proof.
  induction l as [|a l IH]; intros H; [reflexivity|].
  cbn [filter]. rewrite (H a (or_introl eq_refl)). f_equal.
  apply IH. intros x Hx. apply H. now right.
Qed.

Lemma filter_idem {A : Type} (f : A -> bool) (l : list A) :
  filter f (filter f l) = filter f l.
Proof.
  apply filter_all. intros x Hx. now apply filter_In in Hx.
Qed.

(** C6: in a registry whose delegated listeners are the ones under
    [liveui], [resetEvents n] leaves no registration under [liveui]
    on [n], whatever its event type; keeps, in order, every
    registration that is on another node or under another namespace;
    changes nothing when [n] has no registration under [liveui]; and
    afterwards an event of any type delivered to [n] invokes no
    callback. *)
Theorem resetEvents_removes_liveui (n : node) (reg : Registry) :
  delegated_under_liveui reg ->
  (forall r, In r (resetEvents n reg) -> under n liveui r = false)
  /\ filter (fun r => negb (under n liveui r)) (resetEvents n reg)
     = filter (fun r => negb (under n liveui r)) reg
  /\ (forall r, In r reg -> under n liveui r = false ->
                In r (resetEvents n reg))
  /\ ((forall r, In r reg -> under n liveui r = false) ->
      resetEvents n reg = reg)
  /\ (forall evt, deliver d find (resetEvents n reg) n evt = Ret []).
Proof.
  intros Hns. unfold resetEvents, unbind.
  assert (Hgone : forall r,
            In r (filter (fun r => negb (under n liveui r)) reg) ->
            under n liveui r = false).
  { intros r Hr. apply filter_In in Hr. destruct Hr as [_ Hr].
    now apply negb_true_iff in Hr. }
  repeat split.
  - exact Hgone.
  - apply filter_idem.
  - intros r Hr Hu. apply filter_In. now rewrite Hu.
  - intros H. apply filter_all. intros r Hr. now rewrite (H r Hr).
  - intros evt. unfold deliver. apply run_handlers_foreign.
    intros r l Hr Eh. unfold handlers_for in Hr.
    apply filter_In in Hr. destruct Hr as [Hr Hon].
    pose proof (Hgone r Hr) as Hu.
    apply filter_In in Hr. destruct Hr as [Hr _].
    apply andb_prop in Hon. destruct Hon as [Hon _].
    unfold under in Hu. rewrite Hon, (Hns r l Hr Eh) in Hu.
    cbn in Hu. discriminate.
Qed.

End BinderFacts.

(** ** The compatibility layer *)

Section LegacyFacts.

Variable d : DOM.

Lemma compat_count_attach (s : Attachments) (n : node) (ev : string)
  (n' : node) (ev' : string) :
  compat_count (attachEvent s n ev ChangeSubmitHandlerIE) n' ev'
  = compat_count s n' ev'
    + (if same_attachment n' ev' ChangeSubmitHandlerIE
            (mkAttachment n ev ChangeSubmitHandlerIE) then 1 else 0).
Proof.
  unfold compat_count, attachEvent. rewrite filter_app, length_app.
  cbn [filter]. now destruct (same_attachment n' ev' _ _).
Qed.

Lemma same_attachment_eq (n : node) (ev : string) (n' : node) (ev' : string)
  (a : Attachment) :
  same_attachment n ev ChangeSubmitHandlerIE a = true ->
  same_attachment n' ev' ChangeSubmitHandlerIE a
  = same_attachment n' ev' ChangeSubmitHandlerIE
      (mkAttachment n ev ChangeSubmitHandlerIE).
Proof.
  unfold same_attachment. intros H.
  apply andb_prop in H. destruct H as [H H3].
  apply andb_prop in H. destruct H as [H1 H2].
  apply Nat.eqb_eq in H1. apply String.eqb_eq in H2.
  destruct a as [an ae ah]. cbn in *. subst.
  destruct ah; [reflexivity | discriminate].
Qed.

(** Detaching takes one attachment of the handler away if there is
    one, and touches no other count. *)
Lemma compat_count_detach (s : Attachments) (n : node) (ev : string)
  (n' : node) (ev' : string) :
  compat_count (detachEvent s n ev ChangeSubmitHandlerIE) n' ev'
  = if same_attachment n' ev' ChangeSubmitHandlerIE
         (mkAttachment n ev ChangeSubmitHandlerIE)
    then pred (compat_count s n' ev')
    else compat_count s n' ev'.
Proof.
  unfold compat_count.
  induction s as [|a s IH]; cbn [detachEvent filter].
  - now destruct (same_attachment n' ev' _ _).
  - destruct (same_attachment n ev ChangeSubmitHandlerIE a) eqn:E.
    + rewrite (same_attachment_eq _ _ n' ev' _ E).
      destruct (same_attachment n' ev' _ _); reflexivity.
    + cbn [filter].
      destruct (same_attachment n' ev' ChangeSubmitHandlerIE a) eqn:E';
        [|exact IH].
      cbn [List.length]. rewrite IH.
      destruct (same_attachment n' ev' ChangeSubmitHandlerIE
                  (mkAttachment n ev ChangeSubmitHandlerIE)) eqn:E'';
        [|reflexivity].
      exfalso.
      assert (same_attachment n ev ChangeSubmitHandlerIE a = true);
        [|congruence].
      unfold same_attachment in *. cbn in E''.
      apply andb_prop in E''. destruct E'' as [E'' _].
      apply andb_prop in E''. destruct E'' as [N1 N2].
      apply Nat.eqb_eq in N1. apply String.eqb_eq in N2. now subst.
Qed.

Lemma rewire_at_most_one (s : Attachments) (n : node) (ev : string) :
  at_most_one s ->
  at_most_one (attachEvent (detachEvent s n ev ChangeSubmitHandlerIE)
                 n ev ChangeSubmitHandlerIE).
Proof.
  intros H n' ev'. rewrite compat_count_attach, compat_count_detach.
  specialize (H n' ev').
  destruct (same_attachment n' ev' _ _); lia.
Qed.

(** After [detachEvent] and [attachEvent] the handler is attached
    exactly once. *)
Lemma rewire_exactly_one (s : Attachments) (n : node) (ev : string) :
  at_most_one s ->
  compat_count (attachEvent (detachEvent s n ev ChangeSubmitHandlerIE)
                  n ev ChangeSubmitHandlerIE) n ev = 1.
Proof.
  intros H. rewrite compat_count_attach, compat_count_detach.
  specialize (H n ev).
  assert (E : same_attachment n ev ChangeSubmitHandlerIE
                (mkAttachment n ev ChangeSubmitHandlerIE) = true).
  { unfold same_attachment. cbn. now rewrite Nat.eqb_refl, String.eqb_refl. }
  rewrite E. lia.
Qed.

Lemma wireNode_at_most_one (n : node) (s : Attachments) :
  at_most_one s -> at_most_one (wireNode d n s).
Proof.
  intros H. unfold wireNode.
  destruct (String.eqb (nodeName d n) "INPUT").
  - destruct (_ || _); now apply rewire_at_most_one.
  - destruct (String.eqb (nodeName d n) "FORM");
      [now apply rewire_at_most_one | exact H].
Qed.

Lemma each_wireNode_at_most_one (l : list node) :
  forall s, at_most_one s -> at_most_one (each_wireNode d l s).
Proof.
  unfold each_wireNode.
  induction l as [|n l IH]; intros s H; cbn [fold_left]; [exact H|].
  apply IH. now apply wireNode_at_most_one.
Qed.

Lemma wire_range_node_at_most_one (n : node) (s : Attachments) :
  at_most_one s -> at_most_one (wire_range_node d n s).
Proof.
  intros H. unfold wire_range_node.
  destruct (firstChild d n).
  - now apply each_wireNode_at_most_one, each_wireNode_at_most_one,
      wireNode_at_most_one.
  - now apply wireNode_at_most_one.
Qed.

Lemma wireIEChangeSubmitHack_at_most_one (start end_ : node)
  (s : Attachments) :
  at_most_one s ->
  exists s', wireIEChangeSubmitHack d start end_ s = Ret s'
             /\ at_most_one s'.
Proof.
  intros H. unfold wireIEChangeSubmitHack.
  rewrite for_siblings_range by (unfold range_fuel; lia).
  eexists. split; [reflexivity|].
  generalize (range_nodes d (range_fuel d start) (nextSibling d end_)
                (Some start)).
  intros l. revert s H.
  induction l as [|n l IH]; intros s H; cbn [fold_left]; [exact H|].
  apply IH. now apply wire_range_node_at_most_one.
Qed.

Variable bubble : node -> string -> IEEvent -> bubbled.

(** What [changeSubmitHandlerIE] does for a submit event of a form, in
    order: it blocks the default, fires [ondatasetcomplete] on the
    form, and the form is submitted, by the handler on the document,
    when the fired event reaches the document with a [returnValue]
    other than [false]. *)
Lemma submit_trace (evt : IEEvent) (form : node) :
  ie_type evt = "submit" ->
  ie_srcElement evt = Some form ->
  nodeName d form = "FORM" ->
  changeSubmitHandlerIE d bubble (Some evt)
  = (Some (mkIEEvent "submit" (Some form) (ie_propertyName evt) (Some false)),
     BlockDefault :: FireEvent form "ondatasetcomplete"
       :: match bubble form "ondatasetcomplete"
                  (mkIEEvent "datasetcomplete" (Some form) "" None) with
          | StoppedBelowDocument => []
          | ReachedDocument returnValue =>
              if is_false returnValue then [] else [FormSubmit form]
          end).
Proof.
  intros Hty Hsrc Hname.
  unfold changeSubmitHandlerIE, fireEvent, ondatasetcomplete,
    createEventObject.
  rewrite Hsrc, Hty. cbn [String.eqb Ascii.eqb Bool.eqb andb orb app
    ie_type ie_srcElement ie_propertyName ie_returnValue].
  change (event_name "ondatasetcomplete") with "datasetcomplete".
  destruct (bubble form "ondatasetcomplete" _) as [|rv]; [reflexivity|].
  rewrite Hname. destruct (is_false rv); reflexivity.
Qed.

(** C9, where the code fails it: [changeSubmitHandlerIE] run for a
    submit event of a form when a listener of the fired
    [ondatasetcomplete] event stops its propagation without cancelling
    it: the default submission of the original event is blocked, the
    surrogate is fired, the handler on the document never runs, and
    the form is not submitted at all, where the claim (and the comment
    of the handler: submit later if the app does not prevent it) has
    it submitted exactly once. *)
Theorem deferred_submit_lost_when_propagation_stops (evt : IEEvent)
  (form : node) :
  ie_type evt = "submit" ->
  ie_srcElement evt = Some form ->
  nodeName d form = "FORM" ->
  bubble form "ondatasetcomplete"
    (mkIEEvent "datasetcomplete" (Some form) "" None)
  = StoppedBelowDocument ->
  changeSubmitHandlerIE d bubble (Some evt)
  = (Some (mkIEEvent "submit" (Some form) (ie_propertyName evt) (Some false)),
     [BlockDefault; FireEvent form "ondatasetcomplete"])
  /\ count_submits (snd (changeSubmitHandlerIE d bubble (Some evt))) = 0.
Proof.
  intros Hty Hsrc Hname Hstop.
  rewrite (submit_trace evt form Hty Hsrc Hname), Hstop.
  split; reflexivity.
Qed.

End LegacyFacts.

(** C10: from attachments in which [changeSubmitHandlerIE] is attached
    at most once to any node for any event, any sequence of
    [prepareForEvents] calls returns, and leaves the handler attached
    at most once to every node for every event. *)
Theorem prepareForEvents_at_most_one (legacy : bool)
  (calls : list (DOM * (node * node))) (s : Attachments) :
  at_most_one s ->
  exists s', prepare_all legacy calls s = Ret s'
             /\ forall n ev, compat_count s' n ev <= 1.
Proof.
  revert s. induction calls as [|[d [start end_]] calls IH]; intros s H.
  - exists s. now split.
  - cbn [prepare_all]. unfold prepareForEvents.
    destruct legacy.
    + destruct (wireIEChangeSubmitHack_at_most_one d start end_ s H)
        as (s1 & -> & H1).
      cbn [bind]. now apply IH.
    + cbn [bind]. now apply IH.
Qed.

(** ** The properties on the sample document *)

Lemma sample_range_path : sibling_path sample_dom 2 4 [2; 3; 4].
Proof.
  apply sibling_path_next with (m := 3); [reflexivity|].
  apply sibling_path_next with (m := 4); [reflexivity|].
  apply sibling_path_end.
Defined.

(** A click on [6] reaches the listener bound on [3]; the path below
    the context [1] is [6; 5; 3] and [6] is matched. *)
Lemma bubbling_listener_witness :
  (exists below above,
     parent_path sample_dom (Some 1) 6 = below ++ [3]
     /\ ancestors_or_self sample_dom 6 = below ++ 3 :: above)
  /\ selector_walk sample_dom (walk_fuel sample_dom 6) (Some 1)
    (sample_find (Some 1) ".save") true (Some 6)
  = Ret (List.find
           (fun n => contains (sample_find (Some 1) ".save") (Some n))
           (parent_path sample_dom (Some 1) 6))
  /\ (exists out,
        listener sample_dom sample_find sample_click_listener sample_click
        = Ret out)
  /\ (invoked (listener sample_dom sample_find sample_click_listener
                 sample_click) = true
      <-> exists n, In n (parent_path sample_dom (Some 1) 6)
                    /\ In n (sample_find (Some 1) ".save")).
Proof.
  apply (bubbling_listener_fires_iff_path_matches sample_dom sample_find
           sample_click_listener sample_click).
  - reflexivity.
  - reflexivity.
  - right. right. left. reflexivity.
Defined.

(** A [focusin] on the text input [7] does not invoke a ["focus .save"]
    callback bound on the form [4]. *)
Lemma nonbubbling_listener_witness :
  bubbles (l_binding sample_focus_listener) = false
  /\ (forall fuel cur,
        selector_walk sample_dom (S fuel) (Some 1)
          (sample_find (Some 1) ".save") false cur
        = selector_walk sample_dom 1 (Some 1)
            (sample_find (Some 1) ".save") false cur)
  /\ (exists out,
        listener sample_dom sample_find sample_focus_listener sample_focusin
        = Ret out)
  /\ (invoked (listener sample_dom sample_find sample_focus_listener
                 sample_focusin) = true
      <-> In 7 (sample_find (Some 1) ".save") /\ Some 7 <> Some 1).
Proof.
  apply (nonbubbling_listener_checks_origin_only sample_dom sample_find
           true "focus" ".save" 7 4 99 sample_focusin).
  - left. reflexivity.
  - reflexivity.
Defined.

Lemma attachEvents_installs_on_range_witness :
  attachEvents sample_dom true 2 4 sample_events 99 [sample_foreign]
  = Ret ([sample_foreign]
         ++ flat_map
              (fun b =>
                 map (fun n =>
                        mkRegistration n (rewrittenEventType b) liveui
                          (Delegated (mkListener b n 99))) [2; 3; 4])
              (parse_events true sample_events))
  /\ (forall b n,
        count_on n
          (map (fun n => mkRegistration n (rewrittenEventType b) liveui
                           (Delegated (mkListener b n 99))) [2; 3; 4])
        = if in_dec Nat.eq_dec n [2; 3; 4] then 1 else 0)
  /\ (forall n,
        count_on n
          (flat_map
             (fun b =>
                map (fun n =>
                       mkRegistration n (rewrittenEventType b) liveui
                         (Delegated (mkListener b n 99))) [2; 3; 4])
             (parse_events true sample_events))
        = if in_dec Nat.eq_dec n [2; 3; 4]
          then List.length (parse_events true sample_events) else 0).
Proof.
  apply (attachEvents_installs_on_range sample_dom true 2 4 [2; 3; 4]
           sample_events 99 [sample_foreign]).
  exact sample_range_path.
Defined.

Lemma sample_registry_under_liveui : delegated_under_liveui sample_registry.
Proof.
  intros r l H E. cbn in H.
  destruct H as [<-|[<-|[<-|[]]]]; try reflexivity. discriminate E.
Defined.

Lemma resetEvents_removes_liveui_witness :
  (forall r, In r (resetEvents 3 sample_registry) -> under 3 liveui r = false)
  /\ filter (fun r => negb (under 3 liveui r)) (resetEvents 3 sample_registry)
     = filter (fun r => negb (under 3 liveui r)) sample_registry
  /\ (forall r, In r sample_registry -> under 3 liveui r = false ->
                In r (resetEvents 3 sample_registry))
  /\ ((forall r, In r sample_registry -> under 3 liveui r = false) ->
      resetEvents 3 sample_registry = sample_registry)
  /\ (forall evt,
        deliver sample_dom sample_find (resetEvents 3 sample_registry) 3 evt
        = Ret []).
Proof.
  apply (resetEvents_removes_liveui sample_dom sample_find 3 sample_registry).
  exact sample_registry_under_liveui.
Defined.

Lemma sample_foreign_well_placed : well_placed [sample_foreign].
Proof.
  intros r l H E. destruct H as [<-|[]]. discriminate E.
Defined.

(** On the sample the counts of C7 are the ones of the scenario: no
    invocation before, one after one call, two after two. *)
Example attach_twice_sample :
  exists reg1 reg2,
    attachEvents sample_dom true 2 4 sample_events 99 [] = Ret reg1
    /\ attachEvents sample_dom true 2 4 sample_events 99 reg1 = Ret reg2
    /\ List.length reg2 = 2 * List.length reg1
    /\ option_map (count_calls 7)
         (match fire sample_dom sample_find reg1 sample_click with
          | Ret c => Some c | _ => None end) = Some 1
    /\ option_map (count_calls 7)
         (match fire sample_dom sample_find reg2 sample_click with
          | Ret c => Some c | _ => None end) = Some 2.
Proof.
  eexists. eexists.
  split; [reflexivity|]. split; [reflexivity|]. repeat split.
Qed.

Lemma listener_effect_witness :
  listener sample_dom sample_find sample_focus_listener sample_focusin
  = Ret (mkEvent "focus" 7 0, None)
  /\ (ev_type (mkEvent "focus" 7 0) = "focus"
      /\ ev_target (mkEvent "focus" 7 0) = 7
      /\ ev_rest (mkEvent "focus" 7 0) = 0
      /\ (@None Invocation = None
          \/ None = Some (mkInvocation 7 99 (set_type sample_focusin "focus")))
      /\ (ev_type sample_focusin = "focus" ->
          mkEvent "focus" 7 0 = sample_focusin)).
Proof.
  split; [reflexivity|].
  apply (listener_effect sample_dom sample_find sample_focus_listener
           sample_focusin (mkEvent "focus" 7 0, None)).
  reflexivity.
Defined.

(** C8, as stated, fails: the ["focus .save"] listener on [4], run for
    a [focusin] on [7], does not invoke the callback (the selector does
    not match) and yet leaves the event with the type [focus] instead
    of [focusin]. *)
Lemma listener_retypes_unmatched_event :
  listener sample_dom sample_find sample_focus_listener sample_focusin
  = Ret (mkEvent "focus" 7 0, None)
  /\ mkEvent "focus" 7 0 <> sample_focusin.
Proof. split; [reflexivity | discriminate]. Qed.

Lemma deferred_submit_lost_witness :
  changeSubmitHandlerIE sample_dom (fun _ _ _ => StoppedBelowDocument)
    (Some sample_submit)
  = (Some (mkIEEvent "submit" (Some 4) "" (Some false)),
     [BlockDefault; FireEvent 4 "ondatasetcomplete"])
  /\ count_submits
       (snd (changeSubmitHandlerIE sample_dom
               (fun _ _ _ => StoppedBelowDocument) (Some sample_submit))) = 0.
Proof.
  apply (deferred_submit_lost_when_propagation_stops sample_dom
           (fun _ _ _ => StoppedBelowDocument) sample_submit 4);
    reflexivity.
Defined.

(** A handler that cancels the surrogate event: no submission. *)
Example deferred_submit_cancelled :
  snd (changeSubmitHandlerIE sample_dom
         (fun _ _ _ => ReachedDocument (Some false)) (Some sample_submit))
  = [BlockDefault; FireEvent 4 "ondatasetcomplete"].
Proof. reflexivity. Qed.

Lemma no_attachments_at_most_one : at_most_one [].
Proof. intros n ev. apply Nat.le_0_l. Defined.

Lemma prepareForEvents_at_most_one_witness :
  exists s',
    prepare_all true
      [(sample_dom, (2, 4)); (sample_dom, (3, 4)); (sample_dom, (2, 4))] []
    = Ret s'
    /\ forall n ev, compat_count s' n ev <= 1.
Proof.
  apply (prepareForEvents_at_most_one true
           [(sample_dom, (2, 4)); (sample_dom, (3, 4)); (sample_dom, (2, 4))]
           []).
  exact no_attachments_at_most_one.
Defined.

(** Three calls over the sample leave each wired node with the handler
    attached once. *)
Example prepare_sample :
  prepare_all true
    [(sample_dom, (2, 4)); (sample_dom, (3, 4)); (sample_dom, (2, 4))] []
  = Ret [mkAttachment 6 "onpropertychange" ChangeSubmitHandlerIE;
         mkAttachment 4 "onsubmit" ChangeSubmitHandlerIE;
         mkAttachment 7 "onchange" ChangeSubmitHandlerIE].
Proof. reflexivity. Qed.


(** * Further properties *)

(** ** The grammar of event specs *)

Lemma append_nil_r (s : string) : String.append s EmptyString = s.
Proof. induction s as [|c s IH]; cbn; [reflexivity | now rewrite IH]. Qed.

Lemma append_assoc (a b c : string) :
  String.append (String.append a b) c = String.append a (String.append b c).
Proof. induction a as [|x a IH]; cbn; [reflexivity | now rewrite IH]. Qed.

Lemma snoc_append (cur : string) (c : ascii) (t : string) :
  String.append (snoc cur c) t = String.append cur (String c t).
Proof. unfold snoc. now rewrite append_assoc. Qed.

Lemma no_ws_snoc (cur : string) (c : ascii) :
  no_ws cur = true -> is_ws c = false -> no_ws (snoc cur c) = true.
Proof.
  intros Hc Hw. unfold snoc.
  induction cur as [|x cur IH]; cbn in *.
  - now rewrite Hw.
  - apply andb_prop in Hc. destruct Hc as [-> Hc]. now rewrite IH.
Qed.

(** Every part that [split(/\s+/)] yields is free of white space. *)
Lemma split_ws_go_no_ws (s : string) :
  forall in_sep cur,
    no_ws cur = true ->
    Forall (fun p => no_ws p = true) (split_ws_go in_sep cur s).
Proof.
  induction s as [|c s IH]; intros in_sep cur Hc; cbn [split_ws_go].
  - now constructor.
  - destruct (is_ws c) eqn:Hw.
    + destruct in_sep; [now apply IH|].
      constructor; [exact Hc | now apply IH].
    + apply IH. now apply no_ws_snoc.
Qed.

(** A run of characters without white space is taken into the part
    that is open. *)
Lemma split_ws_go_token (t : string) :
  no_ws t = true ->
  forall cur s,
    split_ws_go false cur (String.append t s)
    = split_ws_go false (String.append cur t) s.
Proof.
  induction t as [|c t IH]; intros Ht cur s.
  - cbn. now rewrite append_nil_r.
  - cbn in Ht. apply andb_prop in Ht. destruct Ht as [Hc Ht].
    apply negb_true_iff in Hc.
    cbn [String.append split_ws_go]. rewrite Hc, (IH Ht).
    now rewrite snoc_append.
Qed.

Lemma split_ws_go_first (t : string) :
  is_token t = true ->
  forall in_sep s,
    split_ws_go in_sep EmptyString (String.append t s)
    = split_ws_go false t s.
Proof.
  intros Ht in_sep s. unfold is_token in Ht.
  apply andb_prop in Ht. destruct Ht as [Hne Ht].
  destruct t as [|c t]; [discriminate|].
  cbn in Ht. apply andb_prop in Ht. destruct Ht as [Hc Ht].
  apply negb_true_iff in Hc.
  cbn [String.append split_ws_go]. rewrite Hc.
  now rewrite (split_ws_go_token t Ht).
Qed.

Lemma join_space_cons (t u : string) (ts : list string) :
  join_space (t :: u :: ts)
  = String.append t (String " " (join_space (u :: ts))).
Proof. reflexivity. Qed.

(** Splitting on white space undoes joining tokens with single
    spaces. *)
Lemma split_ws_join (ts : list string) :
  ts <> [] ->
  forallb is_token ts = true ->
  forall in_sep, split_ws_go in_sep EmptyString (join_space ts) = ts.
Proof.
  induction ts as [|t ts IH]; intros Hne Hts in_sep; [congruence|].
  cbn [forallb] in Hts. apply andb_prop in Hts. destruct Hts as [Ht Hts].
  destruct ts as [|u ts].
  - change (join_space [t]) with t.
    rewrite <- (append_nil_r t) at 1.
    now rewrite (split_ws_go_first t Ht).
  - rewrite join_space_cons, (split_ws_go_first t Ht).
    cbn [split_ws_go]. change (is_ws " ") with true. cbn iota.
    f_equal. apply IH; [discriminate | exact Hts].
Qed.

Lemma parse_clause_tokens (legacy : bool) (cb : callback) (ty : string)
  (sel : list string) :
  is_token ty = true ->
  forallb is_token sel = true ->
  parse_clause legacy cb (join_space (ty :: sel))
  = Some (make_binding legacy ty (join_space sel) cb).
Proof.
  intros Hty Hsel. unfold parse_clause, split_ws.
  rewrite split_ws_join; [reflexivity | discriminate |].
  cbn [forallb]. now rewrite Hty, Hsel.
Qed.

(** X1: a clause written as an event type followed by the tokens of a
    selector, with single spaces between them, parses into the binding
    of that event type and of the selector that joins the tokens. *)
Theorem parse_clause_written (legacy : bool) (cb : callback) (ty : string)
  (sel : list string) :
  is_token ty = true ->
  forallb is_token sel = true ->
  parse_clause legacy cb (join_space (ty :: sel))
  = Some (make_binding legacy ty (join_space sel) cb).
Proof. apply parse_clause_tokens. Qed.

Lemma parse_clause_written_witness :
  parse_clause true 7 (join_space ["submit"; "form.login"; ".go"])
  = Some (make_binding true "submit" (join_space ["form.login"; ".go"]) 7).
Proof.
  apply (parse_clause_written true 7 "submit" ["form.login"; ".go"]);
    reflexivity.
Defined.

Lemma starts_with_ws_append (c rest : string) :
  starts_with_ws (String.append c rest)
  = match c with
    | EmptyString => starts_with_ws rest
    | String _ _ => starts_with_ws c
    end.
Proof. now destruct c. Qed.

(** A clause without separator inside is taken whole into the piece
    that is open, when what follows does not start with white space
    and is read the same way inside and outside a separator. *)
Lemma split_clauses_go_clause (rest : string) :
  starts_with_ws rest = false ->
  (forall b b' cur,
     split_clauses_go b cur rest = split_clauses_go b' cur rest) ->
  forall c in_sep cur,
    no_sep c = true ->
    (in_sep = true -> starts_with_ws c = false) ->
    split_clauses_go in_sep cur (String.append c rest)
    = split_clauses_go false (String.append cur c) rest.
Proof.
  intros Hrest Hind. induction c as [|x c IH]; intros in_sep cur Hc Hs.
  - cbn [String.append]. rewrite append_nil_r. apply Hind.
  - cbn [no_sep] in Hc. apply andb_prop in Hc. destruct Hc as [Hx Hc].
    apply negb_true_iff in Hx.
    cbn [String.append split_clauses_go].
    assert (E1 : in_sep && is_ws x = false).
    { destruct in_sep; [|reflexivity]. cbn. exact (Hs eq_refl). }
    assert (E2 : is_comma x && starts_with_ws (String.append c rest) = false).
    { rewrite starts_with_ws_append. destruct c; [|exact Hx].
      rewrite Hrest. apply andb_false_r. }
    rewrite E1, E2, IH; [|exact Hc|discriminate].
    now rewrite snoc_append.
Qed.

Lemma split_clauses_go_separator (b : bool) (cur rest : string) :
  split_clauses_go b cur (String "," (String " " rest))
  = cur :: split_clauses_go true EmptyString rest.
Proof.
  cbn [split_clauses_go]. change (is_ws ",") with false.
  rewrite andb_false_r. reflexivity.
Qed.

(** Splitting on the clause separator undoes joining clean clauses
    with a comma and a space. *)
Lemma split_clauses_join (cs : list string) :
  cs <> [] ->
  forallb clean_clause cs = true ->
  forall in_sep,
    split_clauses_go in_sep EmptyString (String.concat ", " cs) = cs.
Proof.
  induction cs as [|c cs IH]; intros Hne Hcs in_sep; [congruence|].
  cbn [forallb] in Hcs. apply andb_prop in Hcs. destruct Hcs as [Hc Hcs].
  unfold clean_clause in Hc. apply andb_prop in Hc. destruct Hc as [Hc Hs].
  apply negb_true_iff in Hs.
  destruct cs as [|c2 cs].
  - change (String.concat ", " [c]) with c.
    rewrite <- (append_nil_r c) at 1.
    rewrite split_clauses_go_clause; auto.
  - change (String.concat ", " (c :: c2 :: cs))
      with (String.append c
              (String "," (String " " (String.concat ", " (c2 :: cs))))).
    rewrite split_clauses_go_clause; auto.
    + rewrite split_clauses_go_separator. cbn [String.append]. f_equal.
      apply IH; [discriminate | exact Hcs].
    + intros b b' cur. now rewrite !split_clauses_go_separator.
Qed.

Lemma no_ws_starts (t : string) : no_ws t = true -> starts_with_ws t = false.
Proof.
  destruct t as [|c t]; [reflexivity|]. cbn. intros H.
  apply andb_prop in H. destruct H as [H _]. now apply negb_true_iff in H.
Qed.

Lemma no_sep_no_ws (t : string) : no_ws t = true -> no_sep t = true.
Proof.
  induction t as [|c t IH]; [reflexivity|]. cbn [no_ws no_sep]. intros H.
  apply andb_prop in H. destruct H as [_ H].
  now rewrite (no_ws_starts t H), andb_false_r, IH.
Qed.

Lemma no_sep_word_space (rest : string) :
  no_sep rest = true ->
  forall t,
    t <> EmptyString -> no_ws t = true -> ends_with_comma t = false ->
    no_sep (String.append t (String " " rest)) = true.
Proof.
  intros Hrest. induction t as [|c t IH]; intros Hne Hw He; [congruence|].
  cbn [no_ws] in Hw. apply andb_prop in Hw. destruct Hw as [_ Hw].
  cbn [String.append no_sep]. destruct t as [|y t].
  - cbn in He. cbn [String.append starts_with_ws no_sep].
    change (is_ws " ") with true. change (is_comma " ") with false.
    rewrite He, Hrest. reflexivity.
  - change (ends_with_comma (String c (String y t)))
      with (ends_with_comma (String y t)) in He.
    rewrite starts_with_ws_append, (no_ws_starts _ Hw), andb_false_r.
    cbn [negb andb]. apply IH; [discriminate | exact Hw | exact He].
Qed.

Lemma is_word_parts (t : string) :
  is_word t = true ->
  t <> EmptyString /\ no_ws t = true /\ ends_with_comma t = false
  /\ is_token t = true.
Proof.
  unfold is_word, is_token. intros H.
  apply andb_prop in H. destruct H as [H He].
  apply negb_true_iff in He. rewrite H.
  apply andb_prop in H. destruct H as [Hn Hw].
  apply negb_true_iff, String.eqb_neq in Hn. auto.
Qed.

Lemma no_sep_join_words (ts : list string) :
  forallb is_word ts = true -> no_sep (join_space ts) = true.
Proof.
  induction ts as [|t ts IH]; intros H; [reflexivity|].
  cbn [forallb] in H. apply andb_prop in H. destruct H as [Ht Hts].
  apply is_word_parts in Ht. destruct Ht as (Hn & Hw & He & _).
  destruct ts as [|u ts].
  - now apply no_sep_no_ws.
  - rewrite join_space_cons. apply no_sep_word_space; auto.
Qed.

Lemma forallb_word_token (ts : list string) :
  forallb is_word ts = true -> forallb is_token ts = true.
Proof.
  induction ts as [|t ts IH]; [reflexivity|]. cbn [forallb]. intros H.
  apply andb_prop in H. destruct H as [Ht Hts].
  apply is_word_parts in Ht. destruct Ht as (_ & _ & _ & ->). now apply IH.
Qed.

Lemma write_clause_clean (item : string * list string) :
  item_words item = true -> clean_clause (write_clause item) = true.
Proof.
  unfold item_words, clean_clause, write_clause. intros H.
  apply andb_prop in H. destruct H as [Hty Hsel].
  rewrite no_sep_join_words by (cbn [forallb]; now rewrite Hty, Hsel).
  apply is_word_parts in Hty. destruct Hty as (Hn & Hw & _ & _).
  destruct (snd item) as [|u ts].
  - change (join_space [fst item]) with (fst item).
    now rewrite (no_ws_starts _ Hw).
  - rewrite join_space_cons, starts_with_ws_append.
    destruct (fst item) as [|c t]; [congruence|].
    now rewrite (no_ws_starts _ Hw).
Qed.

(** X2: a spec string written as clauses separated by a comma and a
    space, each clause an event type and selector words separated by
    single spaces (words that do not end in a comma), parses into one
    binding for each clause, in order, with the event type and the
    selector as written. *)
Theorem parse_events_written (legacy : bool) (cb : callback)
  (items : list (string * list string)) :
  items <> [] ->
  forallb item_words items = true ->
  parse_events legacy (Some [(write_spec items, cb)])
  = map (fun item =>
           make_binding legacy (fst item) (join_space (snd item)) cb)
      items.
Proof.
  intros Hne Hw. unfold parse_events. cbn [flat_map].
  rewrite app_nil_r. unfold parse_spec, write_spec, split_clauses.
  rewrite split_clauses_join.
  - clear Hne. induction items as [|item items IH]; [reflexivity|].
    cbn [forallb] in Hw. apply andb_prop in Hw. destruct Hw as [Hi Hw].
    cbn [map flat_map]. rewrite (IH Hw).
    unfold clause_bindings at 1, write_clause.
    unfold item_words in Hi. apply andb_prop in Hi. destruct Hi as [Hty Hsel].
    apply is_word_parts in Hty. destruct Hty as (_ & _ & _ & Hty).
    now rewrite (parse_clause_tokens _ _ _ _ Hty (forallb_word_token _ Hsel)).
  - destruct items; [congruence | discriminate].
  - clear Hne. induction items as [|item items IH]; [reflexivity|].
    cbn [forallb] in Hw. apply andb_prop in Hw. destruct Hw as [Hi Hw].
    cbn [map forallb]. now rewrite (write_clause_clean _ Hi), IH.
Qed.

Lemma parse_events_written_witness :
  parse_events true
    (Some [(write_spec [("click", [".save"]); ("focus", ["input.name"]);
                        ("submit", [])], 7)])
  = map (fun item => make_binding true (fst item) (join_space (snd item)) 7)
      [("click", [".save"]); ("focus", ["input.name"]); ("submit", [])].
Proof.
  apply (parse_events_written true 7
           [("click", [".save"]); ("focus", ["input.name"]); ("submit", [])]).
  - discriminate.
  - reflexivity.
Defined.

Lemma rewritten_no_ws (legacy : bool) (ty : string) :
  no_ws ty = true -> no_ws (fst (rewriteEventType legacy ty)) = true.
Proof.
  intros H. unfold rewriteEventType.
  destruct (String.eqb ty "focus"); [reflexivity|].
  destruct (String.eqb ty "blur"); [reflexivity|].
  destruct (String.eqb ty "change"); [destruct legacy; [reflexivity|exact H]|].
  destruct (String.eqb ty "submit"); [destruct legacy; [reflexivity|exact H]|].
  exact H.
Qed.

Lemma parse_clause_no_ws (legacy : bool) (cb : callback) (clause : string)
  (b : Binding) :
  parse_clause legacy cb clause = Some b ->
  no_ws (eventType b) = true /\ no_ws (rewrittenEventType b) = true
  /\ b_callback b = cb.
Proof.
  unfold parse_clause, split_ws.
  pose proof (split_ws_go_no_ws clause false EmptyString eq_refl) as F.
  destruct (split_ws_go false EmptyString clause) as [|ty parts];
    [discriminate|].
  intros [= <-]. rewrite make_binding_fields.
  cbn [eventType rewrittenEventType b_callback].
  inversion F as [|? ? Hty _]; subst.
  auto using rewritten_no_ws.
Qed.

(** X3: whatever the event map, the event type of every binding that
    parsing yields, and the type it is rewritten to, contain no white
    space, so a listener is registered under exactly one type; and the
    callback of the binding is one of the callbacks of the map. *)
Theorem parsed_types_no_ws (legacy : bool) (events : option event_map)
  (b : Binding) :
  In b (parse_events legacy events) ->
  no_ws (eventType b) = true
  /\ no_ws (rewrittenEventType b) = true
  /\ exists spec m, events = Some m /\ In (spec, b_callback b) m.
Proof.
  unfold parse_events. intros H.
  destruct events as [m|]; [|contradiction].
  apply in_flat_map in H. destruct H as ([spec cb] & Hm & H).
  unfold parse_spec in H. apply in_flat_map in H.
  destruct H as (clause & _ & H). unfold clause_bindings in H.
  destruct (parse_clause legacy cb clause) as [b'|] eqn:E; [|contradiction].
  destruct H as [<-|[]].
  destruct (parse_clause_no_ws _ _ _ _ E) as (H1 & H2 & H3).
  repeat split; try assumption.
  exists spec, m. now rewrite H3.
Qed.

Lemma parsed_types_no_ws_witness :
  no_ws (eventType (mkBinding "focus" "focusin" false ".save" 7)) = true
  /\ no_ws (rewrittenEventType (mkBinding "focus" "focusin" false ".save" 7))
     = true
  /\ exists spec m,
      sample_events = Some m
      /\ In (spec, b_callback (mkBinding "focus" "focusin" false ".save" 7)) m.
Proof.
  apply (parsed_types_no_ws true sample_events
           (mkBinding "focus" "focusin" false ".save" 7)).
  right. left. reflexivity.
Defined.

(** ** Edges of the delegated listener *)

Section ListenerEdges.

Variable d : DOM.
Variable find : option node -> string -> list node.

(** X4: a clause that is an event type alone gives a binding without
    selector, and the listener of such a binding invokes the callback
    for every event it receives, with [event_data] as [this] and the
    event retyped to the declared type, without consulting the tree or
    the selector matcher. *)
Theorem bare_event_type_always_fires (legacy : bool) (cb : callback)
  (ty : string) (renderNode : node) (event_data : object_ref) (evt : Event) :
  is_token ty = true ->
  exists b,
    parse_clause legacy cb ty = Some b
    /\ listener d find (mkListener b renderNode event_data) evt
       = Ret (set_type evt ty,
              Some (mkInvocation cb event_data (set_type evt ty))).
Proof.
  intros Hty. exists (make_binding legacy ty EmptyString cb). split.
  - exact (parse_clause_tokens legacy cb ty [] Hty eq_refl).
  - unfold listener. rewrite make_binding_fields. reflexivity.
Qed.

(** With a bubbling binding, a walk that starts outside the subtree of
    the context and meets no matched node runs off the root and reads
    [parentNode] of [null]. *)
Lemma selector_walk_off_tree (results : list node) (x : node) :
  forall k c,
    depth d c < k ->
    ~ In x (path_below d k None (Some c)) ->
    (forall n, In n (path_below d k None (Some c)) -> ~ In n results) ->
    selector_walk d (S k) (Some x) results true (Some c) = TypeError.
Proof.
  induction k as [|k IH]; intros c Hk Hx Hr; [lia|].
  rewrite path_below_step in Hx, Hr. cbn [same_node] in Hx, Hr.
  rewrite selector_walk_step.
  assert (E1 : same_node (Some c) (Some x) = false).
  { apply same_node_neq. intros [= ->]. apply Hx. now left. }
  assert (E2 : contains results (Some c) = false).
  { destruct (contains results (Some c)) eqn:E; [|reflexivity].
    apply contains_In in E. exfalso. apply (Hr c); [now left | exact E]. }
  rewrite E1, E2. cbn [negb].
  destruct (parentNode d c) as [p|] eqn:Ep.
  - apply IH.
    + pose proof (parent_depth d c p Ep). lia.
    + intros H. apply Hx. now right.
    + intros n Hn. apply Hr. now right.
  - reflexivity.
Qed.

(** X5: a listener of a bubbling binding with a non-empty selector whose
    bound node has a parent, run for an event whose origin is not below
    that parent and has no matched node among itself and its ancestors,
    throws a [TypeError]: the walk passes the root and reads
    [parentNode] of [null]. *)
Theorem listener_throws_off_tree (l : Listener) (evt : Event) (c : node) :
  bubbles (l_binding l) = true ->
  truthy (selector (l_binding l)) = true ->
  parentNode d (l_renderNode l) = Some c ->
  ~ In c (ancestors_or_self d (ev_target evt)) ->
  (forall n, In n (ancestors_or_self d (ev_target evt)) ->
             ~ In n (find (Some c) (selector (l_binding l)))) ->
  listener d find l evt = TypeError.
Proof.
  intros Hb Hs Hp Hc Hr. unfold listener.
  rewrite Hs, Hb, Hp. cbn [set_type ev_target]. unfold walk_fuel.
  rewrite selector_walk_off_tree; [reflexivity | lia | exact Hc | exact Hr].
Qed.

Lemma selector_walk_null_context (results : list node) :
  forall k c,
    depth d c < k ->
    selector_walk d (S k) None results true (Some c)
    = Ret (List.find (fun n => contains results (Some n))
             (path_below d k None (Some c))).
Proof.
  induction k as [|k IH]; intros c Hk; [lia|].
  rewrite selector_walk_step, path_below_step. cbn [same_node List.find].
  destruct (contains results (Some c)); [reflexivity|]. cbn [negb].
  destruct (parentNode d c) as [p|] eqn:Ep.
  - apply IH. pose proof (parent_depth d c p Ep). lia.
  - rewrite path_below_none. reflexivity.
Qed.

(** X6: a listener of a bubbling binding with a non-empty selector whose
    bound node has no parent returns for every event, wherever the
    event originates: the walk ends at the root, and the callback is
    invoked if and only if the origin or one of its ancestors is in
    the match set. *)
Theorem listener_on_parentless_node (l : Listener) (evt : Event) :
  bubbles (l_binding l) = true ->
  truthy (selector (l_binding l)) = true ->
  parentNode d (l_renderNode l) = None ->
  (exists out, listener d find l evt = Ret out)
  /\ (invoked (listener d find l evt) = true
      <-> exists n, In n (ancestors_or_self d (ev_target evt))
                    /\ In n (find None (selector (l_binding l)))).
Proof.
  intros Hb Hs Hp. unfold listener.
  rewrite Hs, Hb, Hp. cbn [set_type ev_target]. unfold walk_fuel.
  rewrite selector_walk_null_context by lia. cbn [bind].
  pose proof (find_some_iff (find None (selector (l_binding l)))
                (ancestors_or_self d (ev_target evt))) as F.
  unfold ancestors_or_self, parent_path in *.
  destruct (List.find _ _) as [m|]; cbn [invoked]; split; eauto.
  - split; [intros _; apply F; discriminate | reflexivity].
  - split; [discriminate|]. intros H. apply F in H. congruence.
Qed.

End ListenerEdges.

Lemma bare_event_type_always_fires_witness :
  exists b,
    parse_clause true 7 "keydown" = Some b
    /\ listener sample_dom sample_find (mkListener b 3 99)
         (mkEvent "keydown" 6 0)
       = Ret (set_type (mkEvent "keydown" 6 0) "keydown",
              Some (mkInvocation 7 99
                      (set_type (mkEvent "keydown" 6 0) "keydown"))).
Proof.
  apply (bare_event_type_always_fires sample_dom sample_find true 7
           "keydown" 3 99 (mkEvent "keydown" 6 0)).
  reflexivity.
Defined.

(** A ["click .save"] listener bound on [5], whose context is [3], run
    for a click on [7], which lies under [4]. *)
Lemma listener_throws_off_tree_witness :
  listener sample_dom sample_find
    (mkListener (make_binding true "click" ".save" 7) 5 99)
    (mkEvent "click" 7 0)
  = TypeError.
Proof.
  apply (listener_throws_off_tree sample_dom sample_find
           (mkListener (make_binding true "click" ".save" 7) 5 99)
           (mkEvent "click" 7 0) 3).
  - reflexivity.
  - reflexivity.
  - reflexivity.
  - cbn. intros [H|[H|[H|[H|[]]]]]; discriminate H.
  - cbn. intros n [<-|[<-|[<-|[<-|[]]]]] [H|[H|[]]]; discriminate H.
Defined.

(** A ["click .save"] listener bound on the root [0]. *)
Lemma listener_on_parentless_node_witness :
  (exists out,
     listener sample_dom sample_find
       (mkListener (make_binding true "click" ".save" 7) 0 99) sample_click
     = Ret out)
  /\ (invoked
        (listener sample_dom sample_find
           (mkListener (make_binding true "click" ".save" 7) 0 99)
           sample_click) = true
      <-> exists n, In n (ancestors_or_self sample_dom 6)
                    /\ In n (sample_find None ".save")).
Proof.
  apply (listener_on_parentless_node sample_dom sample_find
           (mkListener (make_binding true "click" ".save" 7) 0 99)
           sample_click); reflexivity.
Defined.


(** ** Frames and round trips of the binder *)

Section BinderEdges.

Variable d : DOM.
Variable find : option node -> string -> list node.
Variable legacy : bool.

Lemma range_nodes_step (fuel : nat) (after : option node) (x : node) :
  range_nodes d (S fuel) after (Some x)
  = if same_node (Some x) after then []
    else x :: range_nodes d fuel after (nextSibling d x).
Proof. reflexivity. Qed.

Lemma range_nodes_null (fuel : nat) (after : option node) :
  range_nodes d fuel after None = [].
Proof. now destruct fuel. Qed.

(** The loop never leaves the siblings that follow its start. *)
Lemma range_nodes_incl (after : option node) :
  forall fuel n x,
    In x (range_nodes d fuel after n) -> In x (range_nodes d fuel None n).
Proof.
  induction fuel as [|fuel IH]; intros n x H; [contradiction|].
  destruct n as [y|]; [|contradiction].
  rewrite range_nodes_step in *.
  change (same_node (Some y) None) with false. cbv iota.
  destruct (same_node (Some y) after); [contradiction|].
  destruct H as [<-|H]; [now left | right; now apply IH].
Qed.

Lemma range_nodes_rank (after : option node) :
  forall fuel n x,
    In x (range_nodes d fuel after (Some n)) -> rank d x <= rank d n.
Proof.
  induction fuel as [|fuel IH]; intros n x H; [contradiction|].
  rewrite range_nodes_step in H.
  destruct (same_node (Some n) after); [contradiction|].
  destruct H as [<-|H]; [lia|].
  destruct (nextSibling d n) as [m|] eqn:E.
  - apply IH in H. pose proof (sibling_rank d n m E). lia.
  - now rewrite range_nodes_null in H.
Qed.

(** The loop visits no node twice, whatever its start and end. *)
Lemma range_nodes_NoDup (after : option node) :
  forall fuel n, NoDup (range_nodes d fuel after n).
Proof.
  induction fuel as [|fuel IH]; intros n; [constructor|].
  destruct n as [x|]; [|constructor].
  rewrite range_nodes_step.
  destruct (same_node (Some x) after); constructor; [|apply IH].
  intros H. destruct (nextSibling d x) as [m|] eqn:E.
  - apply range_nodes_rank in H. pose proof (sibling_rank d x m E). lia.
  - now rewrite range_nodes_null in H.
Qed.

(** When the node after the end is never met, the loop runs to the
    last sibling. *)
Lemma range_nodes_unmet (after : option node) :
  forall fuel n,
    (forall a, after = Some a -> ~ In a (range_nodes d fuel None n)) ->
    range_nodes d fuel after n = range_nodes d fuel None n.
Proof.
  induction fuel as [|fuel IH]; intros n H; [reflexivity|].
  destruct n as [x|]; [|reflexivity].
  rewrite !range_nodes_step in *.
  change (same_node (Some x) None) with false in *. cbv iota in *.
  destruct (same_node (Some x) after) eqn:E.
  - apply same_node_eq in E. exfalso. apply (H x); [now symmetry | now left].
  - f_equal. apply IH. intros a Ha Hin. apply (H a Ha). now right.
Qed.

Lemma installed_shape_in (event_data : object_ref) (l : list node)
  (bs : list Binding) (r : Registration) :
  In r (flat_map (fun b => map (listener_on b event_data) l) bs) ->
  exists b n, In b bs /\ In n l /\ r = listener_on b event_data n.
Proof.
  intros H. apply in_flat_map in H. destruct H as (b & Hb & H).
  apply in_map_iff in H. destruct H as (n & <- & Hn). eauto.
Qed.

(** X7: for every range, well formed or not, [attachEvents] returns,
    keeps the registrations that were there as they were and in order,
    and adds after them only delegated listeners under [liveui]: each
    for a binding of the event map, registered under the rewritten
    type of the binding on [start] or on a sibling that follows it,
    and closed over that node and the given event data. *)
Theorem attachEvents_keeps_registry (start end_ : node)
  (events : option event_map) (event_data : object_ref) (reg : Registry) :
  exists added,
    attachEvents d legacy start end_ events event_data reg
    = Ret (reg ++ added)
    /\ forall r, In r added ->
         r_namespace r = liveui
         /\ In (r_node r) (siblings_from d start)
         /\ exists b,
             In b (parse_events legacy events)
             /\ r_type r = rewrittenEventType b
             /\ r_handler r
                = Delegated (mkListener b (r_node r) event_data).
Proof.
  eexists. split; [apply attachEvents_installs|].
  intros r Hr. apply installed_shape_in in Hr.
  destruct Hr as (b & n & Hb & Hn & ->). cbn [listener_on r_namespace r_node
    r_type r_handler].
  repeat split.
  - unfold siblings_from. now apply (range_nodes_incl (nextSibling d end_)).
  - now exists b.
Qed.

(** X8: for every range, well formed or not, the listeners that one
    [attachEvents] call adds on a node are either none or exactly one
    for each binding of the event map: no node gets a binding twice or
    a part of the bindings. *)
Theorem attachEvents_all_or_nothing (start end_ : node)
  (events : option event_map) (event_data : object_ref) (reg : Registry) :
  exists added,
    attachEvents d legacy start end_ events event_data reg
    = Ret (reg ++ added)
    /\ forall n,
        count_on n added = 0
        \/ count_on n added = List.length (parse_events legacy events).
Proof.
  eexists. split; [apply attachEvents_installs|].
  intros n. rewrite count_on_installed by apply range_nodes_NoDup.
  destruct (in_dec Nat.eq_dec n (sibling_range d start end_)); auto.
Qed.

(** X9: when the node after [end_] is not [start] or one of the
    siblings that follow [start] (in particular when [end_] has no
    next sibling), the loop does not stop at [end_]: [attachEvents]
    installs the listeners on [start] and on every sibling that follows
    it. *)
Theorem attachEvents_unmet_end (start end_ : node)
  (events : option event_map) (event_data : object_ref) (reg : Registry) :
  (forall a, nextSibling d end_ = Some a -> ~ In a (siblings_from d start)) ->
  sibling_range d start end_ = siblings_from d start
  /\ attachEvents d legacy start end_ events event_data reg
     = Ret (reg ++ flat_map
                     (fun b => map (listener_on b event_data)
                                 (siblings_from d start))
                     (parse_events legacy events)).
Proof.
  intros H.
  assert (E : sibling_range d start end_ = siblings_from d start)
    by now apply range_nodes_unmet.
  split; [exact E|]. now rewrite attachEvents_installs, E.
Qed.

Lemma filter_filter_and {A : Type} (f g : A -> bool) (l : list A) :
  filter f (filter g l) = filter (fun x => g x && f x) l.
Proof.
  induction l as [|a l IH]; [reflexivity|]. cbn [filter].
  destruct (g a); cbn [filter andb]; [destruct (f a)|]; now rewrite IH.
Qed.

Lemma filter_none {A : Type} (f : A -> bool) (l : list A) :
  (forall x, In x l -> f x = false) -> filter f l = [].
Proof.
  induction l as [|a l IH]; intros H; [reflexivity|].
  cbn [filter]. rewrite (H a (or_introl eq_refl)).
  apply IH. intros x Hx. apply H. now right.
Qed.

(** Resetting the nodes of a list removes the registrations under
    [liveui] that sit on one of them. *)
Lemma reset_all_filter (l : list node) :
  forall reg,
    reset_all l reg
    = filter (fun r => negb (existsb (fun n => under n liveui r) l)) reg.
Proof.
  unfold reset_all.
  induction l as [|n l IH]; intros reg; cbn [fold_left existsb].
  - symmetry. now apply filter_all.
  - rewrite IH. unfold resetEvents, unbind. rewrite filter_filter_and.
    apply filter_ext. intros r. now rewrite negb_orb.
Qed.

(** X10: [attachEvents] over a range followed by [resetEvents] on each
    node that the binder visited gives back the registry as it was,
    when no registration under [liveui] sat on those nodes before. *)
Theorem attach_then_reset (start end_ : node)
  (events : option event_map) (event_data : object_ref) (reg : Registry) :
  (forall r n, In r reg -> In n (sibling_range d start end_) ->
               under n liveui r = false) ->
  exists reg',
    attachEvents d legacy start end_ events event_data reg = Ret reg'
    /\ reset_all (sibling_range d start end_) reg' = reg.
Proof.
  intros H. eexists. split; [apply attachEvents_installs|].
  rewrite reset_all_filter, filter_app.
  rewrite filter_all, filter_none; [apply app_nil_r | |].
  - intros r Hr. apply installed_shape_in in Hr.
    destruct Hr as (b & n & _ & Hn & ->).
    apply negb_false_iff, existsb_exists. exists n. split; [exact Hn|].
    unfold under, listener_on. cbn. now rewrite Nat.eqb_refl.
  - intros r Hr. apply negb_true_iff.
    destruct (existsb _ _) eqn:E; [|reflexivity].
    apply existsb_exists in E. destruct E as (n & Hn & Hu).
    now rewrite (H r n Hr Hn) in Hu.
Qed.

Lemma filter_implied {A : Type} (f g : A -> bool) (l : list A) :
  (forall x, g x = true -> f x = true) ->
  filter g (filter f l) = filter g l.
Proof.
  intros H. induction l as [|a l IH]; [reflexivity|]. cbn [filter].
  destruct (f a) eqn:Ef; cbn [filter].
  - now rewrite IH.
  - destruct (g a) eqn:Eg; [|exact IH].
    apply H in Eg. congruence.
Qed.

(** X11: [resetEvents] on a node leaves the handlers of every other
    node as they were: an event delivered to another node, a
    descendant or a sibling as well, invokes what it invoked before. *)
Theorem resetEvents_other_node (n m : node) (reg : Registry) (evt : Event) :
  m <> n ->
  (forall type,
     handlers_for (resetEvents n reg) m type = handlers_for reg m type)
  /\ deliver d find (resetEvents n reg) m evt = deliver d find reg m evt.
Proof.
  intros Hmn.
  assert (E : forall type,
            handlers_for (resetEvents n reg) m type
            = handlers_for reg m type).
  { intros type. unfold handlers_for, resetEvents, unbind.
    apply filter_implied. intros r Hr.
    apply andb_prop in Hr. destruct Hr as [Hr _]. apply Nat.eqb_eq in Hr.
    unfold under. rewrite Hr.
    apply Nat.eqb_neq in Hmn. now rewrite Hmn. }
  split; [exact E|]. unfold deliver. now rewrite E.
Qed.

Lemma deliver_along_nothing (reg : Registry) (evt : Event) :
  forall path,
    (forall n, In n path -> handlers_for reg n (ev_type evt) = []) ->
    deliver_along d find reg path evt = Ret [].
Proof.
  induction path as [|n path IH]; intros H; [reflexivity|].
  cbn [deliver_along]. unfold deliver at 1.
  rewrite (H n (or_introl eq_refl)). cbn [run_handlers bind].
  rewrite IH; [reflexivity|]. intros x Hx. apply H. now right.
Qed.

(** X12: the listeners that [attachEvents] installs are invoked only
    through the range and only for their types: an event that
    originates outside the subtrees of the nodes the binder visited,
    or whose type is not the rewritten type of any binding of the
    event map, invokes no callback. *)
Theorem fire_out_of_scope (start end_ : node)
  (events : option event_map) (event_data : object_ref) (evt : Event) :
  (forall n, In n (sibling_range d start end_) ->
             ~ In n (ancestors_or_self d (ev_target evt)))
  \/ (forall b, In b (parse_events legacy events) ->
                rewrittenEventType b <> ev_type evt) ->
  exists reg',
    attachEvents d legacy start end_ events event_data [] = Ret reg'
    /\ fire d find reg' evt = Ret [].
Proof.
  intros H. eexists. split; [apply attachEvents_installs|].
  cbn [app]. unfold fire. apply deliver_along_nothing.
  intros n Hn. unfold handlers_for. apply filter_none.
  intros r Hr. apply installed_shape_in in Hr.
  destruct Hr as (b & x & Hb & Hx & ->). cbn [listener_on r_node r_type].
  destruct (Nat.eqb_spec x n) as [->|Hne]; [|reflexivity].
  destruct H as [H|H].
  - exfalso. exact (H n Hx Hn).
  - cbn [andb]. apply String.eqb_neq. now apply H.
Qed.

End BinderEdges.

(** A range from [2] to the input [7] inside the form: [7] has no next
    sibling, and the loop covers [2], [3] and [4]. *)
Lemma attachEvents_unmet_end_witness :
  sibling_range sample_dom 2 7 = siblings_from sample_dom 2
  /\ attachEvents sample_dom true 2 7 sample_events 99 []
     = Ret ([] ++ flat_map
                    (fun b => map (listener_on b 99)
                                (siblings_from sample_dom 2))
                    (parse_events true sample_events)).
Proof.
  apply (attachEvents_unmet_end sample_dom true 2 7 sample_events 99 []).
  intros a H. discriminate H.
Defined.

Lemma attach_then_reset_witness :
  exists reg',
    attachEvents sample_dom true 2 4 sample_events 99 [sample_foreign]
    = Ret reg'
    /\ reset_all (sibling_range sample_dom 2 4) reg' = [sample_foreign].
Proof.
  apply (attach_then_reset sample_dom true 2 4 sample_events 99
           [sample_foreign]).
  intros r n [<-|[]] Hn. unfold under, sample_foreign. cbn.
  apply andb_false_r.
Defined.

Lemma resetEvents_other_node_witness :
  (forall type,
     handlers_for (resetEvents 3 sample_registry) 5 type
     = handlers_for sample_registry 5 type)
  /\ deliver sample_dom sample_find (resetEvents 3 sample_registry) 5
       sample_click
     = deliver sample_dom sample_find sample_registry 5 sample_click.
Proof.
  apply (resetEvents_other_node sample_dom sample_find 3 5 sample_registry
           sample_click).
  discriminate.
Defined.

(** A click on [1], the parent of the range, is outside the range. *)
Lemma fire_out_of_scope_witness :
  exists reg',
    attachEvents sample_dom true 2 4 sample_events 99 [] = Ret reg'
    /\ fire sample_dom sample_find reg' (mkEvent "click" 1 0) = Ret [].
Proof.
  apply (fire_out_of_scope sample_dom sample_find true 2 4 sample_events 99
           (mkEvent "click" 1 0)).
  left. cbn. intros n [<-|[<-|[<-|[]]]] [H|[H|[]]]; discriminate H.
Defined.


(** ** Wiring and the handlers of the compatibility layer *)

Section LegacyEdges.

Variable d : DOM.

Lemma wireNode_wired (m : node) (s : Attachments) :
  wireNode d m s
  = match wired_event d m with
    | Some ev =>
        attachEvent (detachEvent s m ev ChangeSubmitHandlerIE)
          m ev ChangeSubmitHandlerIE
    | None => s
    end.
Proof.
  unfold wireNode, wired_event.
  destruct (String.eqb (nodeName d m) "INPUT").
  - now destruct (_ || _).
  - now destruct (String.eqb (nodeName d m) "FORM").
Qed.

(** [wireNode] sets the count of what it wires to one and leaves every
    other count. *)
Lemma wireNode_count (m : node) (s : Attachments) (n : node) (ev : string) :
  at_most_one s ->
  compat_count (wireNode d m s) n ev
  = if wires d m n ev then 1 else compat_count s n ev.
Proof.
  intros H. rewrite wireNode_wired. unfold wires.
  destruct (wired_event d m) as [e|]; [|now rewrite andb_false_r].
  rewrite compat_count_attach, compat_count_detach.
  unfold same_attachment. cbn [a_node a_event a_handler ie_handler_eqb].
  rewrite andb_true_r. specialize (H n ev).
  destruct (Nat.eqb m n && String.eqb e ev); lia.
Qed.

Lemma fold_wireNode_at_most_one (ms : list node) :
  forall s, at_most_one s ->
            at_most_one (fold_left (fun s m => wireNode d m s) ms s).
Proof. exact (each_wireNode_at_most_one d ms). Qed.

Lemma fold_wireNode_count (n : node) (ev : string) (ms : list node) :
  forall s,
    at_most_one s ->
    compat_count (fold_left (fun s m => wireNode d m s) ms s) n ev
    = if existsb (fun m => wires d m n ev) ms then 1
      else compat_count s n ev.
Proof.
  induction ms as [|m ms IH]; intros s H; cbn [fold_left existsb];
    [reflexivity|].
  rewrite IH by now apply wireNode_at_most_one.
  rewrite (wireNode_count m s n ev H).
  destruct (wires d m n ev); cbn [orb]; [|reflexivity].
  now destruct (existsb _ ms).
Qed.

Lemma fold_left_flat_map {A B St : Type} (f : St -> B -> St)
  (g : A -> list B) (l : list A) :
  forall s,
    fold_left f (flat_map g l) s
    = fold_left (fun s x => fold_left f (g x) s) l s.
Proof.
  induction l as [|a l IH]; intros s; [reflexivity|].
  cbn [flat_map fold_left]. now rewrite fold_left_app, IH.
Qed.

(** One run of the hack is [wireNode] on each of its targets in
    order. *)
Lemma wireIEChangeSubmitHack_fold (start end_ : node) (s : Attachments) :
  wireIEChangeSubmitHack d start end_ s
  = Ret (fold_left (fun s m => wireNode d m s) (wire_targets d start end_) s).
Proof.
  unfold wireIEChangeSubmitHack.
  rewrite for_siblings_range by (unfold range_fuel; lia).
  unfold wire_targets. rewrite fold_left_flat_map. f_equal.
  fold (sibling_range d start end_).
  generalize (sibling_range d start end_). intros l. revert s.
  induction l as [|x l IH]; intros s; [reflexivity|].
  cbn [fold_left]. rewrite IH. f_equal.
  unfold wire_range_node, each_wireNode.
  destruct (firstChild d x); [|reflexivity].
  now rewrite fold_left_app.
Qed.

Lemma existsb_wires (n : node) (ev : string) (ms : list node) :
  existsb (fun m => wires d m n ev) ms = true
  <-> In n ms /\ wired_event d n = Some ev.
Proof.
  rewrite existsb_exists. unfold wires. split.
  - intros (m & Hm & H). apply andb_prop in H. destruct H as [E H].
    apply Nat.eqb_eq in E. subst m. split; [exact Hm|].
    destruct (wired_event d n) as [e|]; [|discriminate].
    apply String.eqb_eq in H. now subst.
  - intros [Hn He]. exists n. split; [exact Hn|].
    now rewrite He, Nat.eqb_refl, String.eqb_refl.
Qed.

(** X13: from attachments where [changeSubmitHandlerIE] is attached at
    most once to any node for any event, one run of the hack over a
    range returns and leaves the handler attached exactly once, for
    the event of its kind ([onpropertychange] for checkboxes and radio
    buttons, [onchange] for other inputs, [onsubmit] for forms), to
    every input and form among its targets: the nodes of the range
    and, for those that have a child, their [INPUT] and [FORM]
    descendants.  For every other node and every other event the
    handler is attached as many times as before. *)
Theorem wireIEChangeSubmitHack_counts (start end_ : node) (s : Attachments) :
  at_most_one s ->
  exists s',
    wireIEChangeSubmitHack d start end_ s = Ret s'
    /\ (forall n ev,
          In n (wire_targets d start end_) ->
          wired_event d n = Some ev ->
          compat_count s' n ev = 1)
    /\ (forall n ev,
          ~ (In n (wire_targets d start end_) /\ wired_event d n = Some ev) ->
          compat_count s' n ev = compat_count s n ev).
Proof.
  intros H. eexists. split; [apply wireIEChangeSubmitHack_fold|].
  split; intros n ev.
  - intros Hn He. rewrite (fold_wireNode_count n ev _ s H).
    now rewrite (proj2 (existsb_wires n ev _) (conj Hn He)).
  - intros Hno. rewrite (fold_wireNode_count n ev _ s H).
    destruct (existsb _ _) eqn:E; [|reflexivity].
    apply existsb_wires in E. contradiction.
Qed.

Lemma detachEvent_foreign (s : Attachments) (n : node) (ev : string) :
  filter is_foreign (detachEvent s n ev ChangeSubmitHandlerIE)
  = filter is_foreign s.
Proof.
  induction s as [|a s IH]; [reflexivity|]. cbn [detachEvent].
  destruct (same_attachment n ev ChangeSubmitHandlerIE a) eqn:E.
  - cbn [filter]. unfold is_foreign at 2.
    unfold same_attachment in E. apply andb_prop in E.
    destruct E as [_ ->]. reflexivity.
  - cbn [filter]. now rewrite IH.
Qed.

Lemma wireNode_foreign (m : node) (s : Attachments) :
  filter is_foreign (wireNode d m s) = filter is_foreign s.
Proof.
  rewrite wireNode_wired. destruct (wired_event d m) as [ev|]; [|reflexivity].
  unfold attachEvent. rewrite filter_app, detachEvent_foreign.
  cbn. apply app_nil_r.
Qed.

(** X14: the hack never touches the handlers of others: the
    attachments of handlers other than [changeSubmitHandlerIE] are the
    same, in the same order, after a [prepareForEvents] call as
    before. *)
Theorem prepareForEvents_keeps_foreign (legacy : bool) (start end_ : node)
  (s : Attachments) :
  exists s',
    prepareForEvents d legacy start end_ s = Ret s'
    /\ filter is_foreign s' = filter is_foreign s.
Proof.
  unfold prepareForEvents. destruct legacy; [|now exists s].
  eexists. split; [apply wireIEChangeSubmitHack_fold|].
  generalize (wire_targets d start end_). intros ms. revert s.
  induction ms as [|m ms IH]; intros s; [reflexivity|].
  cbn [fold_left]. now rewrite IH, wireNode_foreign.
Qed.

(** X15: [prepareForEvents] repeated on the same range attaches
    nothing more: after the second call [changeSubmitHandlerIE] is
    attached to every node for every event as many times as after the
    first. *)
Theorem prepareForEvents_twice (legacy : bool) (start end_ : node)
  (s : Attachments) :
  at_most_one s ->
  exists s1 s2,
    prepareForEvents d legacy start end_ s = Ret s1
    /\ prepareForEvents d legacy start end_ s1 = Ret s2
    /\ forall n ev, compat_count s2 n ev = compat_count s1 n ev.
Proof.
  intros H. unfold prepareForEvents. destruct legacy; [|now exists s, s].
  rewrite wireIEChangeSubmitHack_fold.
  eexists. eexists. split; [reflexivity|].
  split; [apply wireIEChangeSubmitHack_fold|].
  intros n ev.
  rewrite (fold_wireNode_count n ev _ _
             (fold_wireNode_at_most_one _ _ H)).
  rewrite (fold_wireNode_count n ev _ s H).
  now destruct (existsb _ _).
Qed.

Variable bubble : node -> string -> IEEvent -> bubbled.

(** X16: for a [change] event, or a [propertychange] event of the
    property [checked], [changeSubmitHandlerIE] leaves the event as it
    is and fires on its source exactly one event, the one that
    [change] bindings are rewritten to listen for under the
    compatibility layer; it blocks nothing and submits nothing. *)
Theorem change_refired_as_cellchange (evt : IEEvent) (target : node) :
  ie_srcElement evt = Some target ->
  ie_type evt = "change"
  \/ (ie_type evt = "propertychange" /\ ie_propertyName evt = "checked") ->
  changeSubmitHandlerIE d bubble (Some evt)
  = (Some evt, [FireEvent target "oncellchange"])
  /\ event_name "oncellchange" = fst (rewriteEventType true "change").
Proof.
  intros Hsrc Hty. split; [|reflexivity].
  unfold changeSubmitHandlerIE, fireEvent. rewrite Hsrc.
  destruct Hty as [-> | [-> ->]];
    cbn [String.eqb Ascii.eqb Bool.eqb andb orb];
    now destruct (bubble target "oncellchange" _).
Qed.

(** X17: [changeSubmitHandlerIE] ignores everything else: without a
    current event or without a source, or for an event that is not a
    [change], a [submit] or a [propertychange] of [checked] (a
    [propertychange] of another property of a checkbox, say), it fires
    nothing, blocks nothing and leaves the event as it is. *)
Theorem other_events_ignored (window_event : option IEEvent) :
  (forall evt, window_event = Some evt ->
     ie_srcElement evt = None
     \/ (ie_type evt <> "change" /\ ie_type evt <> "submit"
         /\ ~ (ie_type evt = "propertychange"
               /\ ie_propertyName evt = "checked"))) ->
  changeSubmitHandlerIE d bubble window_event = (window_event, []).
Proof.
  intros H. unfold changeSubmitHandlerIE.
  destruct window_event as [evt|]; [|reflexivity].
  destruct (H evt eq_refl) as [->|(H1 & H2 & H3)]; [reflexivity|].
  destruct (ie_srcElement evt) as [target|]; [|reflexivity].
  apply String.eqb_neq in H1, H2. rewrite H1, H2.
  destruct (String.eqb_spec (ie_type evt) "propertychange") as [E1|_];
    [|reflexivity].
  destruct (String.eqb_spec (ie_propertyName evt) "checked") as [E2|_];
    [|reflexivity].
  exfalso. now apply H3.
Qed.

(** X18: whatever the current event, [changeSubmitHandlerIE] submits at
    most once, and it submits only for a [submit] event whose source is
    a [FORM] and whose surrogate reached the document without any
    listener having cancelled it; it sets [returnValue] on the current
    event only for a [submit] event, and it never fires [onsubmit]. *)
Theorem submits_only_uncancelled_forms (window_event : option IEEvent) :
  let acts := snd (changeSubmitHandlerIE d bubble window_event) in
  count_submits acts <= 1
  /\ (count_submits acts = 1 ->
      exists evt form returnValue,
        window_event = Some evt
        /\ ie_type evt = "submit"
        /\ ie_srcElement evt = Some form
        /\ nodeName d form = "FORM"
        /\ bubble form "ondatasetcomplete"
             (mkIEEvent "datasetcomplete" (Some form) "" None)
           = ReachedDocument returnValue
        /\ is_false returnValue = false)
  /\ (In BlockDefault acts ->
      exists evt, window_event = Some evt /\ ie_type evt = "submit")
  /\ (forall target, ~ In (FireEvent target "onsubmit") acts).
Proof.
  unfold changeSubmitHandlerIE, fireEvent, ondatasetcomplete,
    createEventObject.
  destruct window_event as [evt|];
    [|cbn; repeat split; try lia; try discriminate; tauto].
  destruct (ie_srcElement evt) as [target|] eqn:Hsrc;
    [|cbn; repeat split; try lia; try discriminate; tauto].
  change (event_name "ondatasetcomplete") with "datasetcomplete".
  change (event_name "oncellchange") with "cellchange".
  change (String.eqb "oncellchange" "ondatasetcomplete") with false.
  change (String.eqb "ondatasetcomplete" "ondatasetcomplete") with true.
  cbv iota. cbn [ie_type ie_srcElement ie_propertyName ie_returnValue].
  destruct (String.eqb_spec (ie_type evt) "submit") as [Hs|Hs].
  - rewrite Hs. change (String.eqb "submit" "propertychange") with false.
    change (String.eqb "submit" "change") with false. cbn [andb orb app snd].
    destruct (bubble target "ondatasetcomplete" _) as [|rv] eqn:Hb.
    + cbn. repeat split; try lia; try discriminate.
      * intros _. now exists evt.
      * intros t0 [H0|[H0|[]]]; discriminate H0.
    + destruct (String.eqb_spec (nodeName d target) "FORM") as [Hn|Hn];
        destruct (is_false rv) eqn:Hc; cbn [andb negb];
        cbn [count_submits filter is_submit List.length];
        (split; [lia|]); (split; [|split]);
        try (intros H0; discriminate H0);
        try (intros _; now exists evt);
        try (intros _; exists evt, target, rv; repeat split; assumption);
        try (intros t0 H0; cbn in H0;
             repeat (destruct H0 as [H0|H0]; try discriminate H0);
             assumption).
  - destruct (_ && _ || _);
      [destruct (bubble target "oncellchange" _)|];
      cbn [snd count_submits filter is_submit List.length];
      (split; [lia|]); (split; [|split]);
      try (intros H0; discriminate H0);
      try (intros t0 H0; cbn in H0;
           repeat (destruct H0 as [H0|H0]; try discriminate H0);
           assumption);
      intros H0; cbn in H0;
      repeat (destruct H0 as [H0|H0]; try discriminate H0); contradiction.
Qed.

(** X20: [changeSubmitHandlerIE] run for a submit event of a form whose
    fired [ondatasetcomplete] event reaches the document: the original
    event has its [returnValue] set to [false]; the handler blocks the
    default, then fires the surrogate, and then the form is submitted
    exactly once if the listeners left the [returnValue] of the
    surrogate other than [false] and not at all if they set it to
    [false]; no [onsubmit] is fired. *)
Theorem deferred_submit_at_document (evt : IEEvent) (form : node)
  (returnValue : option bool) :
  ie_type evt = "submit" ->
  ie_srcElement evt = Some form ->
  nodeName d form = "FORM" ->
  bubble form "ondatasetcomplete"
    (mkIEEvent "datasetcomplete" (Some form) "" None)
  = ReachedDocument returnValue ->
  let acts := snd (changeSubmitHandlerIE d bubble (Some evt)) in
  fst (changeSubmitHandlerIE d bubble (Some evt))
  = Some (mkIEEvent "submit" (Some form) (ie_propertyName evt) (Some false))
  /\ acts = BlockDefault :: FireEvent form "ondatasetcomplete"
              :: (if is_false returnValue then [] else [FormSubmit form])
  /\ count_submits acts = (if is_false returnValue then 0 else 1)
  /\ forall target, ~ In (FireEvent target "onsubmit") acts.
Proof.
  intros Hty Hsrc Hname Hb acts. unfold acts.
  rewrite (submit_trace d bubble evt form Hty Hsrc Hname), Hb.
  cbn [fst snd]. repeat split.
  - destruct (is_false returnValue); reflexivity.
  - intros target H. destruct (is_false returnValue); cbn in H;
      repeat (destruct H as [H|H]; try discriminate H); assumption.
Qed.

End LegacyEdges.

Lemma wireIEChangeSubmitHack_counts_witness :
  exists s',
    wireIEChangeSubmitHack sample_dom 2 4 [] = Ret s'
    /\ (forall n ev,
          In n (wire_targets sample_dom 2 4) ->
          wired_event sample_dom n = Some ev ->
          compat_count s' n ev = 1)
    /\ (forall n ev,
          ~ (In n (wire_targets sample_dom 2 4)
             /\ wired_event sample_dom n = Some ev) ->
          compat_count s' n ev = compat_count [] n ev).
Proof.
  apply (wireIEChangeSubmitHack_counts sample_dom 2 4 []).
  exact no_attachments_at_most_one.
Defined.

Lemma prepareForEvents_twice_witness :
  exists s1 s2,
    prepareForEvents sample_dom true 2 4 [] = Ret s1
    /\ prepareForEvents sample_dom true 2 4 s1 = Ret s2
    /\ forall n ev, compat_count s2 n ev = compat_count s1 n ev.
Proof.
  apply (prepareForEvents_twice sample_dom true 2 4 []).
  exact no_attachments_at_most_one.
Defined.

(** The checkbox [6] reports that it was checked. *)
Lemma change_refired_as_cellchange_witness :
  changeSubmitHandlerIE sample_dom (fun _ _ _ => ReachedDocument None)
    (Some (mkIEEvent "propertychange" (Some 6) "checked" None))
  = (Some (mkIEEvent "propertychange" (Some 6) "checked" None),
     [FireEvent 6 "oncellchange"])
  /\ event_name "oncellchange" = fst (rewriteEventType true "change").
Proof.
  apply (change_refired_as_cellchange sample_dom (fun _ _ _ => ReachedDocument None)
           (mkIEEvent "propertychange" (Some 6) "checked" None) 6).
  - reflexivity.
  - right. split; reflexivity.
Defined.

(** The checkbox [6] reports a change of another property. *)
Lemma other_events_ignored_witness :
  changeSubmitHandlerIE sample_dom (fun _ _ _ => ReachedDocument None)
    (Some (mkIEEvent "propertychange" (Some 6) "value" None))
  = (Some (mkIEEvent "propertychange" (Some 6) "value" None), []).
Proof.
  apply (other_events_ignored sample_dom (fun _ _ _ => ReachedDocument None)
           (Some (mkIEEvent "propertychange" (Some 6) "value" None))).
  intros evt [= <-]. right. cbn.
  split; [discriminate|]. split; [discriminate|].
  intros [_ H]. discriminate H.
Defined.

(** ** Invariants of the registry *)

Lemma under_liveui_app (r1 r2 : Registry) :
  delegated_under_liveui r1 -> delegated_under_liveui r2 ->
  delegated_under_liveui (r1 ++ r2).
Proof.
  intros H1 H2 r l Hr. apply in_app_or in Hr.
  destruct Hr; [now apply H1 | now apply H2].
Qed.

(** X19: a registry in which every delegated listener sits on the node
    it was made for, under [liveui], stays such a registry through
    [attachEvents] and through [resetEvents]; and on such a registry no
    fired event makes a listener throw: firing returns the list of the
    invocations. *)
Theorem registry_invariants_kept (d : DOM)
  (find : option node -> string -> list node) (legacy : bool)
  (start end_ : node) (events : option event_map) (event_data : object_ref)
  (reg : Registry) :
  well_placed reg ->
  delegated_under_liveui reg ->
  (exists reg',
     attachEvents d legacy start end_ events event_data reg = Ret reg'
     /\ well_placed reg'
     /\ delegated_under_liveui reg'
     /\ forall evt, exists calls, fire d find reg' evt = Ret calls)
  /\ (forall n,
        well_placed (resetEvents n reg)
        /\ delegated_under_liveui (resetEvents n reg)
        /\ forall evt, exists calls,
            fire d find (resetEvents n reg) evt = Ret calls).
Proof.
  intros Hw Hu. split.
  - eexists. split; [apply attachEvents_installs|].
    assert (Hw' : well_placed
                    (reg ++ flat_map
                              (fun b => map (listener_on b event_data)
                                          (sibling_range d start end_))
                              (parse_events legacy events)))
      by (apply well_placed_app; [exact Hw | apply installed_well_placed]).
    split; [exact Hw'|]. split.
    + apply under_liveui_app; [exact Hu | apply installed_under_liveui].
    + intros evt. now apply fire_returns.
  - intros n.
    assert (Hw' : well_placed (resetEvents n reg)).
    { intros r l Hr. apply filter_In in Hr. destruct Hr as [Hr _].
      now apply Hw. }
    split; [exact Hw'|]. split.
    + intros r l Hr. apply filter_In in Hr. destruct Hr as [Hr _].
      now apply Hu.
    + intros evt. now apply fire_returns.
Qed.

Lemma registry_invariants_kept_witness :
  (exists reg',
     attachEvents sample_dom true 2 4 sample_events 99 [sample_foreign]
     = Ret reg'
     /\ well_placed reg'
     /\ delegated_under_liveui reg'
     /\ forall evt, exists calls, fire sample_dom sample_find reg' evt = Ret calls)
  /\ (forall n,
        well_placed (resetEvents n [sample_foreign])
        /\ delegated_under_liveui (resetEvents n [sample_foreign])
        /\ forall evt, exists calls,
            fire sample_dom sample_find (resetEvents n [sample_foreign]) evt
            = Ret calls).
Proof.
  apply (registry_invariants_kept sample_dom sample_find true 2 4
           sample_events 99 [sample_foreign]).
  - exact sample_foreign_well_placed.
  - intros r l [<-|[]] E. discriminate E.
Defined.

Lemma deferred_submit_at_document_witness :
  fst (changeSubmitHandlerIE sample_dom (fun _ _ _ => ReachedDocument None)
         (Some sample_submit))
  = Some (mkIEEvent "submit" (Some 4) "" (Some false))
  /\ snd (changeSubmitHandlerIE sample_dom
            (fun _ _ _ => ReachedDocument None) (Some sample_submit))
     = [BlockDefault; FireEvent 4 "ondatasetcomplete"; FormSubmit 4]
  /\ count_submits
       (snd (changeSubmitHandlerIE sample_dom
               (fun _ _ _ => ReachedDocument None) (Some sample_submit))) = 1
  /\ forall target,
      ~ In (FireEvent target "onsubmit")
          (snd (changeSubmitHandlerIE sample_dom
                  (fun _ _ _ => ReachedDocument None) (Some sample_submit))).
Proof.
  apply (deferred_submit_at_document sample_dom
           (fun _ _ _ => ReachedDocument None) sample_submit 4 None);
    reflexivity.
Defined.


(** ** Binding twice *)

Section BindingTwice.

Variable d : DOM.
Variable find : option node -> string -> list node.
Variable legacy : bool.

Lemma find_existsb {A B : Type} (p : A -> bool) (l : list A) (x y : B) :
  match List.find p l with Some _ => x | None => y end
  = if existsb p l then x else y.
Proof.
  induction l as [|a l IH]; [reflexivity|]. cbn [List.find existsb].
  now destruct (p a).
Qed.

(** The listener of the code decides as the resolver of the
    specification does, for an event that reaches the bound node. *)
Lemma listener_resolver (b : Binding) (n : node) (event_data : object_ref)
  (evt : Event) :
  In n (ancestors_or_self d (ev_target evt)) ->
  listener d find (mkListener b n event_data) evt
  = Ret (set_type evt (eventType b),
         if spec_resolver_fires d find b n evt
         then Some (mkInvocation (b_callback b) event_data
                      (set_type evt (eventType b)))
         else None).
Proof.
  intros Hn. unfold listener, spec_resolver_fires.
  cbn [l_binding l_renderNode l_event_data set_type ev_target].
  destruct (truthy (selector b)); [|reflexivity].
  destruct (bubbles b).
  - rewrite (selector_walk_bubbling d _ _ _ _ (Nat.lt_succ_diag_r _) Hn).
    cbn [bind]. fold (parent_path d (parentNode d n) (ev_target evt)).
    rewrite find_existsb. now destruct (existsb _ _).
  - unfold walk_fuel, parent_path.
    rewrite selector_walk_step, path_below_step. cbn [negb].
    destruct (same_node (Some (ev_target evt)) (parentNode d n));
      [reflexivity|].
    cbn [firstn existsb]. rewrite orb_false_r.
    now destruct (contains _ _).
Qed.

Lemma run_handlers_bindings (n : node) (event_data : object_ref)
  (evt : Event) :
  In n (ancestors_or_self d (ev_target evt)) ->
  forall bs,
    run_handlers d find (map (fun b => listener_on b event_data n) bs) evt
    = Ret (map (call_of event_data evt)
             (map (pair n)
                (filter (fun b => spec_resolver_fires d find b n evt) bs))).
Proof.
  intros Hn. induction bs as [|b bs IH]; [reflexivity|].
  cbn [map run_handlers listener_on r_handler filter].
  rewrite (listener_resolver b n event_data evt Hn). cbn [bind fst snd].
  rewrite run_handlers_set_type, IH. cbn [bind].
  now destruct (spec_resolver_fires d find b n evt).
Qed.

Lemma handlers_for_listeners (b : Binding) (event_data : object_ref)
  (n : node) (type : string) (l : list node) :
  NoDup l ->
  handlers_for (map (listener_on b event_data) l) n type
  = if String.eqb (rewrittenEventType b) type && existsb (Nat.eqb n) l
    then [listener_on b event_data n] else [].
Proof.
  unfold handlers_for. induction 1 as [|x l Hx Hl IH].
  - cbn. now rewrite andb_false_r.
  - cbn [map filter existsb listener_on r_node r_type].
    rewrite (Nat.eqb_sym n x).
    destruct (Nat.eqb_spec x n) as [->|Hne]; cbn [andb orb].
    + rewrite IH.
      assert (E : existsb (Nat.eqb n) l = false).
      { destruct (existsb (Nat.eqb n) l) eqn:E; [|reflexivity].
        apply existsb_exists in E. destruct E as (y & Hy & E).
        apply Nat.eqb_eq in E. subst y. contradiction. }
      rewrite E, andb_false_r, andb_true_r.
      now destruct (String.eqb (rewrittenEventType b) type).
    + exact IH.
Qed.

Lemma handlers_for_installed (event_data : object_ref) (n : node)
  (type : string) (l : list node) (bs : list Binding) :
  NoDup l ->
  handlers_for (flat_map (fun b => map (listener_on b event_data) l) bs)
    n type
  = if existsb (Nat.eqb n) l
    then map (fun b => listener_on b event_data n)
           (filter (fun b => String.eqb (rewrittenEventType b) type) bs)
    else [].
Proof.
  intros Hl. induction bs as [|b bs IH].
  - cbn. now destruct (existsb (Nat.eqb n) l).
  - cbn [flat_map filter]. unfold handlers_for in *.
    rewrite filter_app, IH.
    fold (handlers_for (map (listener_on b event_data) l) n type).
    rewrite (handlers_for_listeners b event_data n type l Hl).
    destruct (existsb (Nat.eqb n) l);
      destruct (String.eqb (rewrittenEventType b) type); reflexivity.
Qed.

(** What an event delivered to a node of its propagation path invokes
    on the listeners of one [attachEvents] call. *)
Lemma deliver_installed (event_data : object_ref) (n : node)
  (l : list node) (bs : list Binding) (evt : Event) :
  NoDup l ->
  In n (ancestors_or_self d (ev_target evt)) ->
  deliver d find (flat_map (fun b => map (listener_on b event_data) l) bs)
    n evt
  = Ret (map (call_of event_data evt)
           (if existsb (Nat.eqb n) l then
              map (pair n)
                (filter (fun b =>
                           String.eqb (rewrittenEventType b) (ev_type evt)
                           && spec_resolver_fires d find b n evt) bs)
            else [])).
Proof.
  intros Hl Hn. unfold deliver. rewrite (handlers_for_installed _ _ _ _ _ Hl).
  destruct (existsb (Nat.eqb n) l); [|reflexivity].
  rewrite (run_handlers_bindings n event_data evt Hn).
  now rewrite filter_filter_and.
Qed.

Lemma fire_installed (event_data : object_ref) (l : list node)
  (bs : list Binding) (evt : Event) :
  NoDup l ->
  fire d find (flat_map (fun b => map (listener_on b event_data) l) bs) evt
  = Ret (map (call_of event_data evt)
           (spec_matching_bindings d find bs l evt)).
Proof.
  intros Hl. unfold fire, spec_matching_bindings.
  assert (H : forall path,
            incl path (ancestors_or_self d (ev_target evt)) ->
            deliver_along d find
              (flat_map (fun b => map (listener_on b event_data) l) bs)
              path evt
            = Ret (map (call_of event_data evt)
                     (flat_map
                        (fun n =>
                           if existsb (Nat.eqb n) l then
                             map (pair n)
                               (filter
                                  (fun b =>
                                     String.eqb (rewrittenEventType b)
                                       (ev_type evt)
                                     && spec_resolver_fires d find b n evt)
                                  bs)
                           else []) path))).
  { induction path as [|n path IH]; intros Hi; [reflexivity|].
    cbn [deliver_along flat_map].
    rewrite (deliver_installed event_data n l bs evt Hl)
      by (apply Hi; now left).
    cbn [bind]. rewrite IH by (intros x Hx; apply Hi; now right).
    cbn [bind]. now rewrite map_app. }
  apply H, incl_refl.
Qed.

Lemma count_calls_one (event_data : object_ref) (evt : Event)
  (n : node) (b : Binding) :
  count_calls (b_callback b) (map (call_of event_data evt) [(n, b)]) = 1.
Proof.
  unfold count_calls. cbn. now rewrite Nat.eqb_refl.
Qed.

(** C7: on a range whose end is reachable from its start through the
    nodes [l], [attachEvents] called twice with the same range, event
    map and event data appends the same listeners twice, one for each
    parsed binding on each node of [l] each time.  Alone, these
    listeners invoke for an event exactly the callbacks of the
    bindings that the event matches, once each.  So an event fired
    after one call invokes every callback as often as the registry did
    before plus once for each matching binding of the callback, and
    after two calls plus twice for each: when the event matches one
    binding and nothing invoked its callback before, the callback is
    invoked once after one call and exactly twice after two. *)
Theorem attachEvents_twice_invokes_twice (start end_ : node) (l : list node)
  (events : option event_map) (event_data : object_ref) (reg : Registry)
  (evt : Event) :
  sibling_path d start end_ l ->
  well_placed reg ->
  let installed :=
    flat_map (fun b =>
                map (fun n => mkRegistration n (rewrittenEventType b) liveui
                                (Delegated (mkListener b n event_data))) l)
      (parse_events legacy events) in
  let matching :=
    spec_matching_bindings d find (parse_events legacy events) l evt in
  attachEvents d legacy start end_ events event_data reg
  = Ret (reg ++ installed)
  /\ attachEvents d legacy start end_ events event_data (reg ++ installed)
     = Ret ((reg ++ installed) ++ installed)
  /\ fire d find installed evt = Ret (map (call_of event_data evt) matching)
  /\ exists before once twice,
      fire d find reg evt = Ret before
      /\ fire d find (reg ++ installed) evt = Ret once
      /\ fire d find ((reg ++ installed) ++ installed) evt = Ret twice
      /\ (forall cb,
            count_calls cb once
            = count_calls cb before
              + count_calls cb (map (call_of event_data evt) matching)
            /\ count_calls cb twice
               = count_calls cb before
                 + 2 * count_calls cb (map (call_of event_data evt) matching))
      /\ (forall n b,
            matching = [(n, b)] ->
            count_calls (b_callback b) before = 0 ->
            count_calls (b_callback b) once = 1
            /\ count_calls (b_callback b) twice = 2).
Proof.
  intros Hp Hw installed matching.
  pose proof (sibling_path_NoDup d _ _ _ Hp) as Hl.
  assert (Ei : installed
               = flat_map (fun b => map (listener_on b event_data) l)
                   (parse_events legacy events)) by reflexivity.
  assert (Ha : forall r,
            attachEvents d legacy start end_ events event_data r
            = Ret (r ++ installed)).
  { intros r. now rewrite attachEvents_installs, (sibling_range_path d _ _ _ Hp). }
  assert (Hf : fire d find installed evt
               = Ret (map (call_of event_data evt) matching)).
  { rewrite Ei. now apply fire_installed. }
  split; [apply Ha|]. split; [apply Ha|]. split; [exact Hf|].
  destruct (fire_returns d find reg evt Hw) as [before Hb].
  unfold fire in *.
  destruct (deliver_along_app d find reg installed evt _ _ _ Hb Hf)
    as (once & Ho & Co).
  destruct (deliver_along_app d find (reg ++ installed) installed evt
              _ _ _ Ho Hf) as (twice & Ht & Ct).
  exists before, once, twice.
  split; [exact Hb|]. split; [exact Ho|]. split; [exact Ht|]. split.
  - intros cb. rewrite Ct, Co. lia.
  - intros n b Hm H0. rewrite Ct, Co, H0, Hm, count_calls_one. lia.
Qed.

End BindingTwice.

(** A click on [6] after two calls over the range from [2] to [4]:
    the event matches the binding ["click .save"] on [3]. *)
Lemma attachEvents_twice_invokes_twice_witness :
  attachEvents sample_dom true 2 4 sample_events 99 [sample_foreign]
  = Ret ([sample_foreign]
         ++ flat_map
              (fun b =>
                 map (fun n => mkRegistration n (rewrittenEventType b) liveui
                                 (Delegated (mkListener b n 99))) [2; 3; 4])
              (parse_events true sample_events))
  /\ attachEvents sample_dom true 2 4 sample_events 99
       ([sample_foreign]
        ++ flat_map
             (fun b =>
                map (fun n => mkRegistration n (rewrittenEventType b) liveui
                                (Delegated (mkListener b n 99))) [2; 3; 4])
             (parse_events true sample_events))
     = Ret (([sample_foreign]
             ++ flat_map
                  (fun b =>
                     map (fun n =>
                            mkRegistration n (rewrittenEventType b) liveui
                              (Delegated (mkListener b n 99))) [2; 3; 4])
                  (parse_events true sample_events))
            ++ flat_map
                 (fun b =>
                    map (fun n =>
                           mkRegistration n (rewrittenEventType b) liveui
                             (Delegated (mkListener b n 99))) [2; 3; 4])
                 (parse_events true sample_events))
  /\ fire sample_dom sample_find
       (flat_map
          (fun b =>
             map (fun n => mkRegistration n (rewrittenEventType b) liveui
                             (Delegated (mkListener b n 99))) [2; 3; 4])
          (parse_events true sample_events)) sample_click
     = Ret (map (call_of 99 sample_click)
              (spec_matching_bindings sample_dom sample_find
                 (parse_events true sample_events) [2; 3; 4] sample_click))
  /\ exists before once twice,
      fire sample_dom sample_find [sample_foreign] sample_click = Ret before
      /\ fire sample_dom sample_find
           ([sample_foreign]
            ++ flat_map
                 (fun b =>
                    map (fun n =>
                           mkRegistration n (rewrittenEventType b) liveui
                             (Delegated (mkListener b n 99))) [2; 3; 4])
                 (parse_events true sample_events)) sample_click = Ret once
      /\ fire sample_dom sample_find
           (([sample_foreign]
             ++ flat_map
                  (fun b =>
                     map (fun n =>
                            mkRegistration n (rewrittenEventType b) liveui
                              (Delegated (mkListener b n 99))) [2; 3; 4])
                  (parse_events true sample_events))
            ++ flat_map
                 (fun b =>
                    map (fun n =>
                           mkRegistration n (rewrittenEventType b) liveui
                             (Delegated (mkListener b n 99))) [2; 3; 4])
                 (parse_events true sample_events)) sample_click = Ret twice
      /\ (forall cb,
            count_calls cb once
            = count_calls cb before
              + count_calls cb
                  (map (call_of 99 sample_click)
                     (spec_matching_bindings sample_dom sample_find
                        (parse_events true sample_events) [2; 3; 4]
                        sample_click))
            /\ count_calls cb twice
               = count_calls cb before
                 + 2 * count_calls cb
                         (map (call_of 99 sample_click)
                            (spec_matching_bindings sample_dom sample_find
                               (parse_events true sample_events) [2; 3; 4]
                               sample_click)))
      /\ (forall n b,
            spec_matching_bindings sample_dom sample_find
              (parse_events true sample_events) [2; 3; 4] sample_click
            = [(n, b)] ->
            count_calls (b_callback b) before = 0 ->
            count_calls (b_callback b) once = 1
            /\ count_calls (b_callback b) twice = 2).
Proof.
  apply (attachEvents_twice_invokes_twice sample_dom sample_find true 2 4
           [2; 3; 4] sample_events 99 [sample_foreign] sample_click).
  - exact sample_range_path.
  - exact sample_foreign_well_placed.
Defined.

(** On the sample the click matches exactly the binding ["click .save"]
    bound on [3]. *)
Example sample_click_matches_one :
  spec_matching_bindings sample_dom sample_find
    (parse_events true sample_events) [2; 3; 4] sample_click
  = [(3, mkBinding "click" "click" true ".save" 7)].
Proof. reflexivity. Qed.
